(** * Risk dashboard (Dash5.py): data shaping pipeline and reactive callbacks

    A shallow embedding of [src/Dash5.py].  The module-level load code
    (lines 38-64), [top_companies] and the Dash callbacks are translated
    into executable Rocq functions over the following data model.

    - A float64 cell is [num := option Q]: [None] is NaN (an empty CSV
      field), [Some q] a number.  Arithmetic is exact, so the rounding of
      binary floating point is not part of the model; the NaN rules of
      pandas (propagation in [+], skipping in [mean], last in
      [sort_values], false in comparisons) are.
    - A [year] value is a [label]: an integer or a text, as pandas parses
      the column; [company] and [industry] are texts.
    - A Python [set] of column names is a [gset string].
    - Exceptions are values of [exn]; fallible code returns [exn + A]. *)

From Stdlib Require Import Ascii String QArith Qround Qabs Lqa Sorting.Sorted.
From stdpp Require Import base decidable option list sorting strings pretty gmap.

Local Open Scope string_scope.
Local Open Scope stdpp_scope.

(** ** Cells *)

Definition num : Type := option Q.

Inductive label : Type :=
| LInt (z : Z)
| LStr (s : string).

Global Instance label_eq_dec : EqDecision label.
Proof. solve_decision. Defined.

(** Elementwise [+] of two float64 columns: NaN propagates. *)
Definition nadd (a b : num) : num :=
  match a, b with
  | Some x, Some y => Some (x + y)%Q
  | _, _ => None
  end.

Fixpoint dropna (xs : list num) : list Q :=
  match xs with
  | [] => []
  | Some x :: xs' => x :: dropna xs'
  | None :: xs' => dropna xs'
  end.

Definition Qsum (xs : list Q) : Q := foldr Qplus 0%Q xs.

(** [DataFrame.mean(axis=1)] on one row, with the default [skipna=True]:
    the mean of the values that are present, NaN when none is. *)
Definition mean_skipna (xs : list num) : num :=
  match dropna xs with
  | [] => None
  | q :: qs => Some (Qsum (q :: qs) / inject_Z (Z.of_nat (length (q :: qs))))%Q
  end.

(** Equality of cells up to the representation of a rational. *)
Definition num_eq (a b : num) : Prop :=
  match a, b with
  | Some x, Some y => (x == y)%Q
  | None, None => True
  | _, _ => False
  end.

(** ** The frame returned by [read_csv_smart] *)

(** One parsed CSV row.  A field is read only when its column is in the
    header: the loader stops before any row is touched when a required
    column is absent, and backfills [year] and [industry]. *)
Record RawRecord : Type := {
  r_company : string;
  r_year : label;
  r_industry : string;
  RD_0 : num; RD_1 : num; RD_2 : num; RD_3 : num;
  RD_4 : num; RD_5 : num; RD_6 : num
}.

Record DataFrame : Type := {
  columns : list string;      (* header names as parsed, not yet stripped *)
  records : list RawRecord
}.

(** ** [str.strip] *)

(** Texts are held as their UTF-8 bytes.  [str.strip()] removes from both
    ends the characters for which [str.isspace()] holds; these are their
    code points. *)
Definition whitespace_points : list N :=
  [0x09; 0x0A; 0x0B; 0x0C; 0x0D; 0x1C; 0x1D; 0x1E; 0x1F; 0x20; 0x85; 0xA0;
   0x1680; 0x2000; 0x2001; 0x2002; 0x2003; 0x2004; 0x2005; 0x2006; 0x2007;
   0x2008; 0x2009; 0x200A; 0x2028; 0x2029; 0x202F; 0x205F; 0x3000]%N.

(** The UTF-8 bytes of a code point below U+10000. *)
Definition utf8 (cp : N) : string :=
  if (cp <? 0x80)%N then String (ascii_of_N cp) ""
  else if (cp <? 0x800)%N then
    String (ascii_of_N (0xC0 + cp / 0x40))
      (String (ascii_of_N (0x80 + cp mod 0x40)) "")
  else
    String (ascii_of_N (0xE0 + cp / 0x1000))
      (String (ascii_of_N (0x80 + (cp / 0x40) mod 0x40))
         (String (ascii_of_N (0x80 + cp mod 0x40)) "")).

Definition whitespace : list string := Eval vm_compute in utf8 <$> whitespace_points.

(** [s] is one whitespace character. *)
Definition is_space (s : string) : bool := bool_decide (s ∈ whitespace).

(** A whitespace character takes one, two or three bytes. *)
Fixpoint lstrip (s : string) : string :=
  match s with
  | EmptyString => EmptyString
  | String a s1 =>
      if is_space (String a "") then lstrip s1 else
      match s1 with
      | EmptyString => s
      | String b s2 =>
          if is_space (String a (String b "")) then lstrip s2 else
          match s2 with
          | EmptyString => s
          | String c s3 =>
              if is_space (String a (String b (String c ""))) then lstrip s3
              else s
          end
      end
  end.

(** From the right: once the rest of the text is stripped, what is left
    ends with a whitespace character only if it is that character. *)
Fixpoint rstrip (s : string) : string :=
  match s with
  | EmptyString => EmptyString
  | String a s' =>
      let t := String a (rstrip s') in
      if is_space t then EmptyString else t
  end.

Definition strip (s : string) : string := rstrip (lstrip s).

(** ** The derived wide table *)

Record RiskRecord : Type := {
  company : string;
  year : label;
  industry : string;
  market : num;            (* 市场风险 *)
  credit : num;            (* 信用风险 *)
  operational : num;       (* 操作风险 *)
  legal_compliance : num;  (* 法律合规风险 *)
  technical : num;         (* 技术风险 *)
  composite : num          (* 综合 *)
}.

(** [CATS]: the five category columns, in the order of the source. *)
Inductive Cat : Type := Market | Credit | Operational | LegalCompliance | Technical.

Global Instance Cat_eq_dec : EqDecision Cat.
Proof. solve_decision. Defined.

Definition CATS : list Cat := [Market; Credit; Operational; LegalCompliance; Technical].

Definition cat_name (c : Cat) : string :=
  match c with
  | Market => "市场风险"
  | Credit => "信用风险"
  | Operational => "操作风险"
  | LegalCompliance => "法律合规风险"
  | Technical => "技术风险"
  end.

Definition cat_value (c : Cat) (r : RiskRecord) : num :=
  match c with
  | Market => market r
  | Credit => credit r
  | Operational => operational r
  | LegalCompliance => legal_compliance r
  | Technical => technical r
  end.

(** [row[CATS]]: the five category values of a row. *)
Definition cats_of (r : RiskRecord) : list num := (λ c, cat_value c r) <$> CATS.

Inductive exn : Type :=
| ValueError (missing : gset string)   (* CSV 缺少必要列 *)
| TypeError
| IndexError
| OSError                              (* the file cannot be read *)
| RequestException                     (* timeout or failing status *)
| ParserError.                         (* raised inside pd.read_csv *)

Definition required : gset string :=
  list_to_set ["company"; "RD_0"; "RD_1"; "RD_2"; "RD_3"; "RD_4"; "RD_5"; "RD_6"].

(** [required - set(raw.columns)] after the header has been stripped. *)
Definition missing_columns (raw : DataFrame) : gset string :=
  required ∖ list_to_set (strip <$> columns raw).

(** Lines 46-58 and 64 on one row.  [has_year] and [has_industry] say
    whether the stripped header has the optional columns. *)
Definition shape (has_year has_industry : bool) (r : RawRecord) : RiskRecord :=
  let m := RD_0 r in
  let c := RD_1 r in
  let o := nadd (RD_2 r) (RD_5 r) in
  let l := RD_3 r in
  let t := nadd (RD_4 r) (RD_6 r) in
  {| company := r_company r;
     year := if has_year then r_year r else LStr "全部";
     industry := if has_industry then r_industry r else "未指定";
     market := m; credit := c; operational := o;
     legal_compliance := l; technical := t;
     composite := mean_skipna [m; c; o; l; t] |}.

(** [wide], or the [ValueError] of line 44. *)
Definition load_wide (raw : DataFrame) : exn + list RiskRecord :=
  let cols := strip <$> columns raw in
  let missing := required ∖ list_to_set cols in
  if decide (missing = ∅) then
    inr (shape (bool_decide ("year" ∈ cols)) (bool_decide ("industry" ∈ cols))
           <$> records raw)
  else inl (ValueError missing).

(** ** [unique] and [YEARS] *)

(** [Series.unique()] / [pd.unique]: the distinct values in order of first
    appearance. *)
Fixpoint unique `{EqDecision A} (l : list A) : list A :=
  match l with
  | [] => []
  | x :: l' => x :: filter (λ y, y ≠ x) (unique l')
  end.

Definition as_ints (ys : list label) : option (list Z) :=
  mapM (λ y, match y with LInt z => Some z | LStr _ => None end) ys.

Definition as_strs (ys : list label) : option (list string) :=
  mapM (λ y, match y with LStr s => Some s | LInt _ => None end) ys.

Definition str_le (s t : string) : Prop := String.leb s t = true.

Global Instance str_le_dec : RelDecision str_le.
Proof. intros s t. unfold str_le. apply _. Defined.

(** Lines 61-62: [list(pd.unique(wide["year"]))] then [list.sort()].
    Python orders integers numerically and texts by code point, and
    raises [TypeError] when it has to compare an integer with a text.
    The values are distinct, so the sorted list does not depend on the
    sorting algorithm. *)
Definition YEARS_of (wide : list RiskRecord) : exn + list label :=
  let ys := unique (year <$> wide) in
  match as_ints ys, as_strs ys with
  | Some zs, _ => inr (LInt <$> merge_sort Z.le zs)
  | None, Some ss => inr (LStr <$> merge_sort str_le ss)
  | None, None => inl TypeError
  end.

(** The module state after line 64. *)
Record App : Type := {
  wide : list RiskRecord;
  YEARS : list label
}.

(** Lines 39-64 on the frame that [read_csv_smart] returned. *)
Definition load (raw : DataFrame) : exn + App :=
  match load_wide raw with
  | inl e => inl e
  | inr w =>
      match YEARS_of w with
      | inl e => inl e
      | inr ys => inr {| wide := w; YEARS := ys |}
      end
  end.

(** ** [DataFrame.sort_values] *)

(** The order of [sort_values(by, ascending)] on a float64 key with the
    default [na_position="last"]: numbers in the requested direction, NaN
    after every number. *)
Definition key_leb (ascending : bool) (a b : num) : bool :=
  match a, b with
  | Some x, Some y => if ascending then Qle_bool x y else Qle_bool y x
  | Some _, None => true
  | None, Some _ => false
  | None, None => true
  end.

Definition by_key (key : RiskRecord → num) (ascending : bool) : relation RiskRecord :=
  λ r s, key_leb ascending (key r) (key s) = true.

Global Instance by_key_dec key ascending : RelDecision (by_key key ascending).
Proof. intros r s. unfold by_key. apply _. Defined.

Global Instance by_key_total key ascending : Total (by_key key ascending).
Proof.
  intros r s. unfold by_key, key_leb.
  destruct (key r) as [x|], (key s) as [y|]; auto.
  destruct ascending; rewrite !Qle_bool_iff;
    destruct (Qlt_le_dec x y) as [H|H]; auto using Qlt_le_weak.
Qed.

Global Instance by_key_trans key ascending : Transitive (by_key key ascending).
Proof.
  intros r s t. unfold by_key, key_leb.
  destruct (key r) as [x|], (key s) as [y|], (key t) as [z|]; try done.
  destruct ascending; rewrite !Qle_bool_iff; eauto using Qle_trans.
Qed.

(** The source calls [sort_values] with the default [kind="quicksort"],
    for which pandas promises a sorted rearrangement of the rows and no
    more (only "mergesort" and "stable" are documented as stable).  A
    [SortKind] is any sorting function with that contract; the callbacks
    are parametrised by it. *)
Record SortKind : Type := {
  sort_values : (RiskRecord → num) → bool → list RiskRecord → list RiskRecord;
  sort_values_perm : ∀ key ascending l, sort_values key ascending l ≡ₚ l;
  sort_values_sorted : ∀ key ascending l,
    StronglySorted (by_key key ascending) (sort_values key ascending l)
}.

(** Insertion of a row in front of the first row that may follow it. *)
Fixpoint insert_by (R : relation RiskRecord) `{!RelDecision R}
    (r : RiskRecord) (l : list RiskRecord) : list RiskRecord :=
  match l with
  | [] => [r]
  | s :: l' => if decide (R r s) then r :: s :: l' else s :: insert_by R r l'
  end.

(** An insertion sort run on a rearrangement [pre] of the rows. *)
Definition insertion_kind (pre : list RiskRecord → list RiskRecord)
    (pre_perm : ∀ l, pre l ≡ₚ l) : SortKind.
Proof.
  assert (Hins : ∀ key ascending r t,
    insert_by (by_key key ascending) r t ≡ₚ r :: t).
  { intros key ascending r t. induction t as [|s t IHt]; simpl; [done|].
    case_decide; [done|]. rewrite IHt. apply Permutation_swap. }
  refine {| sort_values key ascending l :=
              foldr (insert_by (by_key key ascending)) [] (pre l) |}.
  - intros key ascending l. transitivity (pre l); [|apply pre_perm].
    induction (pre l) as [|r l' IH]; simpl; [done|].
    rewrite Hins. by constructor.
  - intros key ascending l.
    induction (pre l) as [|r l' IH]; simpl; [constructor|].
    induction IH as [|s t Ht IHt Hs]; simpl.
    + repeat constructor.
    + case_decide as Hrs.
      * constructor; [by constructor|]. constructor; [done|].
        eapply Forall_impl; [exact Hs|]. intros u Hu. by etrans.
      * constructor; [exact IHt|]. rewrite Hins. constructor; [|done].
        by destruct (total (by_key key ascending) r s).
Defined.

(** The stable kind: rows of equal key keep their order. *)
Definition stable_kind : SortKind := insertion_kind id (λ l, reflexivity l).

(** A kind that meets the contract and returns rows of equal key in the
    opposite order. *)
Definition reversing_kind : SortKind := insertion_kind reverse reverse_Permutation.

(** ** [top_companies] *)

Definition top_companies (K : SortKind) (wide : list RiskRecord)
    (y : label) (n : nat) : list string :=
  let dfy := sort_values K composite false (filter (λ r, year r = y) wide) in
  company <$> take n dfy.

(** ** Themes and figures *)

Definition RED : string := "#C25759".
Definition BLUE : string := "#599CB4".

Record Theme : Type := { background : string; text : string }.

(** [theme_colors['dark'] if is_dark else theme_colors['light']] *)
Definition theme_colors (is_dark : bool) : Theme :=
  if is_dark then {| background := "#2E2E2E"; text := "white" |}
  else {| background := "white"; text := "black" |}.

(** [str(year)] and [str(company)] inside the f-strings of the titles. *)
Definition str_label (y : label) : string :=
  match y with
  | LInt z => pretty z
  | LStr s => s
  end.

Definition str_opt (c : option string) : string := default "None" c.

(** One bar handed to [px.bar]: the row's company on the y axis, the
    metric on the x axis, its colour group and colour, and its text. *)
Record BarMark : Type := {
  bar_y : string;
  bar_x : num;
  bar_group : string;
  bar_color : string;
  bar_text : num
}.

Inductive Trace : Type :=
| Scatterpolar (r : list num) (theta : list string) (name : option string)
    (line_color fillcolor : string)
| Bar (marks : list BarMark)
| Imshow (z : list (list num)) (y_labels : list string).

(** The arguments of [update_layout].  [tickfont_color] is the colour of
    the radial axis ticks, set by the radar only. *)
Record Layout : Type := {
  title : string;
  paper_bgcolor : string;
  font_color : string;
  tickfont_color : option string
}.

(** A chart specification; [go.Figure()] is [empty_figure]. *)
Record Figure : Type := {
  data : list Trace;
  layout : option Layout
}.

Definition empty_figure : Figure := {| data := []; layout := None |}.

(** ** The options cascade *)

Record DropdownOption (V : Type) : Type := {
  opt_label : string;
  opt_value : V
}.
Arguments opt_label {V} _.
Arguments opt_value {V} _.

Definition same_option (s : string) : DropdownOption string :=
  {| opt_label := s; opt_value := s |}.

(** The six outputs of [_options_by_year], in the order of the source. *)
Record YearOutputs : Type := {
  company_options : list (DropdownOption string);
  company_value : option string;
  industry_options : list (DropdownOption string);
  industry_value : option string;
  compare_options : list (DropdownOption string);
  compare_value : list string
}.

Definition _options_by_year (K : SortKind) (wide : list RiskRecord)
    (y : label) : YearOutputs :=
  let dfy := filter (λ r, year r = y) wide in
  let opts := same_option <$> unique (company <$> dfy) in
  match dfy with
  | [] =>
      {| company_options := []; company_value := None;
         industry_options := []; industry_value := None;
         compare_options := []; compare_value := [] |}
  | _ :: _ =>
      let default_company := company <$> head (sort_values K composite false dfy) in
      let default_compare := top_companies K wide y (8 `min` length dfy) in
      let industry_opts := same_option <$> unique (industry <$> dfy) in
      {| company_options := opts; company_value := default_company;
         industry_options := industry_opts; industry_value := None;
         compare_options := opts; compare_value := default_compare |}
  end.

(** ** Radar *)

Definition _radar (wide : list RiskRecord) (y : label)
    (company_sel : option string) (is_dark : bool) : Figure :=
  let theme := theme_colors is_dark in
  let text_color := text theme in
  let bg_color := background theme in
  let dfy := filter (λ r, year r = y ∧ Some (company r) = company_sel) wide in
  let r := match dfy with
           | [] => replicate (length CATS) (Some 0%Q)
           | row :: _ => cats_of row
           end in
  let theta := ((cat_name <$> CATS) ++ take 1 (cat_name <$> CATS))%list in
  let rv := (r ++ take 1 r)%list in
  {| data := [Scatterpolar rv theta company_sel RED "rgba(194,87,89,0.20)"];
     layout := Some {| title := str_opt company_sel ++ " 风险画像（" ++ str_label y ++ "）";
                       paper_bgcolor := bg_color;
                       font_color := text_color;
                       tickfont_color := Some text_color |} |}.

(** ** Bars *)

(** The comparison metric: the composite or one of the categories. *)
Inductive Metric : Type :=
| Composite
| Category (c : Cat).

Definition metric_name (m : Metric) : string :=
  match m with
  | Composite => "综合"
  | Category c => cat_name c
  end.

Definition metric_value (m : Metric) (r : RiskRecord) : num :=
  match m with
  | Composite => composite r
  | Category c => cat_value c r
  end.

(** [numpy.rint]: to the nearest integer, halves to the even one. *)
Definition rint (q : Q) : Z :=
  let f := Qfloor q in
  match (q - inject_Z f ?= 1 # 2)%Q with
  | Lt => f
  | Gt => (f + 1)%Z
  | Eq => if Z.even f then f else (f + 1)%Z
  end.

(** [Series.round(2)]: scale by 100, round, scale back; NaN stays NaN. *)
Definition round2 (x : num) : num :=
  (λ q, inject_Z (rint (q * 100)) / 100)%Q <$> x.

(** [dfy[metric] >= 0]: false on NaN. *)
Definition nonneg (x : num) : bool :=
  match x with
  | Some q => Qle_bool 0 q
  | None => false
  end.

Definition bar_of (m : Metric) (row : RiskRecord) : BarMark :=
  let positive := nonneg (metric_value m row) in
  {| bar_y := company row;
     bar_x := metric_value m row;
     bar_group := if positive then "正" else "负";
     bar_color := if positive then RED else BLUE;
     bar_text := round2 (metric_value m row) |}.

Definition _bars (K : SortKind) (wide : list RiskRecord) (y : label)
    (companies : list string) (m : Metric) (is_dark : bool) : Figure :=
  let theme := theme_colors is_dark in
  let text_color := text theme in
  let bg_color := background theme in
  let dfy := filter (λ r, year r = y) wide in
  let dfy := filter (λ r, company r ∈ companies) dfy in
  match dfy with
  | [] => empty_figure
  | _ :: _ =>
      let dfy := sort_values K (metric_value m) true dfy in
      {| data := [Bar (bar_of m <$> dfy)];
         layout := Some {| title := "公司对比（" ++ str_label y ++ "，维度："
                                      ++ metric_name m ++ "）";
                           paper_bgcolor := bg_color;
                           font_color := text_color;
                           tickfont_color := None |} |}
  end.

(** ** Heatmap *)

(** [dfy[CATS].T]: one line per category, one column per row of [dfy]. *)
Definition cats_T (dfy : list RiskRecord) : list (list num) :=
  (λ c, cat_value c <$> dfy) <$> CATS.

Definition _heatmap (wide : list RiskRecord) (y : label) (is_dark : bool) : Figure :=
  let theme := theme_colors is_dark in
  let text_color := text theme in
  let bg_color := background theme in
  let dfy := filter (λ r, year r = y) wide in
  match dfy with
  | [] => empty_figure
  | _ :: _ =>
      {| data := [Imshow (cats_T dfy) (cat_name <$> CATS)];
         layout := Some {| title := str_label y ++ " 风险维度热力图";
                           paper_bgcolor := bg_color;
                           font_color := text_color;
                           tickfont_color := None |} |}
  end.

(** ** The themed view *)

Record Dropdown (O V : Type) : Type := {
  dd_options : list (DropdownOption O);
  dd_value : V
}.
Arguments dd_options {O V} _.
Arguments dd_value {O V} _.

(** What [toggle_theme] returns: the style of the outer [Div] and of the
    heading, and the five dropdowns with the options and the value the
    source gives them.  The three graphs are created without a figure. *)
Record MainContent : Type := {
  backgroundColor : string;
  color : string;
  heading_color : string;
  year_dropdown : Dropdown label label;
  company_dropdown : Dropdown string (option string);
  industry_dropdown : Dropdown string (option string);
  compare_dropdown : Dropdown string (list string);
  metric_dropdown : Dropdown Metric Metric
}.

(** [YEARS[-1]] raises [IndexError] on a table without rows. *)
Definition toggle_theme (app : App) (is_dark : bool) : exn + MainContent :=
  let theme := theme_colors is_dark in
  let text_color := text theme in
  let bg_color := background theme in
  match last (YEARS app) with
  | None => inl IndexError
  | Some latest =>
      inr {| backgroundColor := bg_color;
             color := text_color;
             heading_color := text_color;
             year_dropdown :=
               {| dd_options := (λ y, {| opt_label := str_label y; opt_value := y |})
                                  <$> YEARS app;
                  dd_value := latest |};
             company_dropdown := {| dd_options := []; dd_value := None |};
             industry_dropdown := {| dd_options := []; dd_value := None |};
             compare_dropdown := {| dd_options := []; dd_value := [] |};
             metric_dropdown :=
               {| dd_options :=
                    {| opt_label := "综合（各类别均值）"; opt_value := Composite |}
                    :: ((λ c, {| opt_label := cat_name c; opt_value := Category c |})
                          <$> CATS);
                  dd_value := Composite |} |}
  end.

(** The selected value of every control other than the theme switch. *)
Record Controls : Type := {
  year_sel : label;
  company_sel : option string;
  industry_sel : option string;
  compare_sel : list string;
  metric_sel : Metric
}.

(** The callback's output is the [children] of [main-content]: the
    dropdowns on the page after it ran are the ones it returned, with the
    values it gave them. *)
Definition rendered_controls (v : MainContent) : Controls :=
  {| year_sel := dd_value (year_dropdown v);
     company_sel := dd_value (company_dropdown v);
     industry_sel := dd_value (industry_dropdown v);
     compare_sel := dd_value (compare_dropdown v);
     metric_sel := dd_value (metric_dropdown v) |}.

(** A figure with the three themed colours replaced. *)
Definition recolor (bg fg : string) (f : Figure) : Figure :=
  {| data := data f;
     layout := (λ l, {| title := title l;
                        paper_bgcolor := bg;
                        font_color := fg;
                        tickfont_color := (λ _, fg) <$> tickfont_color l |})
               <$> layout f |}.

(** ** [read_csv_smart] *)

Definition bytes : Type := string.

(** The length of the prefix handed to [chardet.detect]. *)
Definition SAMPLE : nat := Z.to_nat 50000.

(** The argument of [read_csv_smart]: a [str] or a [pathlib.Path]. *)
Inductive path_or_url : Type :=
| PStr (s : string)
| PPath (p : string).

Global Instance path_or_url_eq_dec : EqDecision path_or_url.
Proof. solve_decision. Defined.

(** What one run finds outside the process: the body of the response to a
    GET (an exception on timeout or on a failing status), and the
    content of a local file. *)
Record World : Type := {
  requests_get : string → exn + bytes;
  open_rb : path_or_url → exn + bytes
}.

Definition is_url (src : path_or_url) : option string :=
  match src with
  | PStr s => if String.prefix "http://" s || String.prefix "https://" s
              then Some s else None
  | PPath _ => None
  end.

(** [d.get("encoding") or "utf-8"] *)
Definition or_utf8 (enc : option string) : string :=
  match enc with
  | Some s => if decide (s = "") then "utf-8" else s
  | None => "utf-8"
  end.

(** The bytes a source holds in a world. *)
Definition source_bytes (w : World) (src : path_or_url) : exn + bytes :=
  match is_url src with
  | Some url => requests_get w url
  | None => open_rb w src
  end.

Section Reader.
(** The two library functions of the reader: [chardet.detect] on a
    prefix, giving the ["encoding"] entry, and [pd.read_csv] on the
    bytes of a buffer or of a file with an encoding. *)
Variable chardet_detect : bytes → option string.
Variable pd_read_csv : bytes → string → exn + DataFrame.

Definition read_csv_smart (w : World) (src : path_or_url) : exn + DataFrame :=
  match is_url src with
  | Some url =>
      match requests_get w url with
      | inl e => inl e
      | inr content =>
          let enc := or_utf8 (chardet_detect (substring 0 SAMPLE content)) in
          pd_read_csv content enc
      end
  | None =>
      match open_rb w src with
      | inl e => inl e
      | inr content =>
          let enc := or_utf8 (chardet_detect (substring 0 SAMPLE content)) in
          match open_rb w src with
          | inl e => inl e
          | inr file => pd_read_csv file enc
          end
      end
  end.

Definition CSV_PATH : path_or_url := PPath "data/doc_risk_scores_k7.csv".

(** Lines 38-64: the source is [CSV_URL] when it is not empty. *)
Definition startup (w : World) (CSV_URL : string) : exn + App :=
  match read_csv_smart w (if decide (CSV_URL = "") then CSV_PATH else PStr CSV_URL) with
  | inl e => inl e
  | inr raw => load raw
  end.

(** The pipeline on a given source. *)
Definition load_from (w : World) (src : path_or_url) : exn + App :=
  match read_csv_smart w src with
  | inl e => inl e
  | inr raw => load raw
  end.

(** What the pipeline computes from the bytes of the source. *)
Definition load_bytes (content : bytes) : exn + App :=
  match pd_read_csv content (or_utf8 (chardet_detect (substring 0 SAMPLE content))) with
  | inl e => inl e
  | inr raw => load raw
  end.
End Reader.

(** ** The wording of the specification, for comparison *)

(** [topCompanies] of the specification: a stable descending sort, so
    that rows of equal composite keep their order in the table. *)
Fixpoint insert_desc (r : RiskRecord) (l : list RiskRecord) : list RiskRecord :=
  match l with
  | [] => [r]
  | s :: l' =>
      if key_leb false (composite r) (composite s) then r :: s :: l'
      else s :: insert_desc r l'
  end.

Definition stable_sort_desc (l : list RiskRecord) : list RiskRecord :=
  foldr insert_desc [] l.

Definition topCompanies_spec (wide : list RiskRecord) (y : label) (n : nat) : list string :=
  company <$> take n (stable_sort_desc (filter (λ r, year r = y) wide)).


(** ** Example tables *)

Definition raw_row (c : string) (y : label) (i : string)
    (d0 d1 d2 d3 d4 d5 d6 : num) : RawRecord :=
  {| r_company := c; r_year := y; r_industry := i;
     RD_0 := d0; RD_1 := d1; RD_2 := d2; RD_3 := d3;
     RD_4 := d4; RD_5 := d5; RD_6 := d6 |}.

Definition header : list string :=
  ["company"; "year"; "industry"; "RD_0"; "RD_1"; "RD_2"; "RD_3"; "RD_4"; "RD_5"; "RD_6"].

(** The row of the specification's example; the header has no [industry]
    column and carries stray blanks. *)
Definition example_frame : DataFrame :=
  {| columns := ["company"; " year"; "RD_0 "; "RD_1"; "RD_2"; " RD_3 "; "RD_4"; "RD_5"; "RD_6"];
     records := [raw_row "A" (LInt 2021) ""
                   (Some 1) (Some 2) (Some 3) (Some 4) (Some 5) (Some 6) (Some 7)]%Q |}.

(** The same row with an empty [RD_0] field. *)
Definition nan_frame : DataFrame :=
  {| columns := header;
     records := [raw_row "A" (LInt 2021) "bank"
                   None (Some 2) (Some 3) (Some 4) (Some 5) (Some 6) (Some 7)]%Q |}.

(** A frame whose header lacks [RD_3] and [RD_6]. *)
Definition short_frame : DataFrame :=
  {| columns := ["company"; "year"; "RD_0"; "RD_1"; "RD_2"; "RD_4"; "RD_5"];
     records := [] |}.

(** The derived categories of [d] are the combinations of the raw
    indicators of [r] that lines 51-55 compute. *)
Definition derived_from (r : RawRecord) (d : RiskRecord) : Prop :=
  company d = r_company r
  ∧ market d = RD_0 r
  ∧ credit d = RD_1 r
  ∧ operational d = nadd (RD_2 r) (RD_5 r)
  ∧ legal_compliance d = RD_3 r
  ∧ technical d = nadd (RD_4 r) (RD_6 r).

(** [wide[wide["year"] == year]] *)
Definition rows_of_year (wide : list RiskRecord) (y : label) : list RiskRecord :=
  filter (λ r, year r = y) wide.

(** Three companies of one year; A and B have the same composite. *)
Definition tied_frame : DataFrame :=
  {| columns := header;
     records :=
       [raw_row "A" (LInt 2021) "bank"
          (Some 1) (Some 1) (Some 1) (Some 1) (Some 1) (Some 1) (Some 1);
        raw_row "B" (LInt 2021) "bank"
          (Some 1) (Some 1) (Some 1) (Some 1) (Some 1) (Some 1) (Some 1);
        raw_row "C" (LInt 2021) "media"
          (Some 3) (Some 3) (Some 3) (Some 3) (Some 3) (Some 3) (Some 3)]%Q |}.

Definition tied_wide : list RiskRecord := shape true true <$> records tied_frame.


(** The values a dropdown offers. *)
Definition offered {V} (opts : list (DropdownOption V)) : list V := opt_value <$> opts.

(** The rows the radar looks at:
    [wide[(wide["year"] == year) & (wide["company"] == company)]]. *)
Definition matching (wide : list RiskRecord) (y : label)
    (company_sel : option string) : list RiskRecord :=
  filter (λ r, year r = y ∧ Some (company r) = company_sel) wide.

(** The rows the bar chart is drawn from. *)
Definition compared (wide : list RiskRecord) (y : label)
    (companies : list string) : list RiskRecord :=
  filter (λ r, company r ∈ companies) (rows_of_year wide y).


(** Two years of data for one company. *)
Definition two_year_frame : DataFrame :=
  {| columns := header;
     records :=
       [raw_row "A" (LInt 2020) "bank"
          (Some 1) (Some 2) (Some 3) (Some 4) (Some 5) (Some 6) (Some 7);
        raw_row "A" (LInt 2019) "bank"
          (Some 2) (Some 2) (Some 2) (Some 2) (Some 2) (Some 2) (Some 2);
        raw_row "B" (LInt 2019) "media"
          (Some (-3)) (Some 0) (Some 1) (Some (5 # 8)) (Some 0) (Some 0) (Some 0)]%Q |}.

Definition two_year_app : App :=
  {| wide := shape true true <$> records two_year_frame;
     YEARS := [LInt 2019; LInt 2020] |}.

(** A selection a user can make on [two_year_app]. *)
Definition selection_2019 : Controls :=
  {| year_sel := LInt 2019;
     company_sel := Some "B";
     industry_sel := Some "media";
     compare_sel := ["A"; "B"];
     metric_sel := Category Market |}.

(** The values the layout of [toggle_theme] gives to the controls. *)
Definition layout_defaults (latest : label) : Controls :=
  {| year_sel := latest;
     company_sel := None;
     industry_sel := None;
     compare_sel := [];
     metric_sel := Composite |}.

(** One content served from a URL in one world and read from the local
    file in another. *)
Definition csv_bytes : bytes := "company,year,RD_0,RD_1,RD_2,RD_3,RD_4,RD_5,RD_6".

Definition remote_world : World :=
  {| requests_get url := if decide (url = "https://example.org/scores.csv")
                         then inr csv_bytes else inl RequestException;
     open_rb _ := inl OSError |}.

Definition local_world : World :=
  {| requests_get _ := inl RequestException;
     open_rb p := if decide (p = CSV_PATH) then inr csv_bytes else inl OSError |}.

Definition toy_detect (prefix : bytes) : option string := None.

Definition toy_read_csv (content : bytes) (enc : string) : exn + DataFrame :=
  if decide (content = csv_bytes ∧ enc = "utf-8") then inr example_frame
  else inl ParserError.

(** The order [list.sort()] puts on the year values: integers by value,
    texts by code point; an integer and a text do not compare. *)
Definition label_le (a b : label) : Prop :=
  match a, b with
  | LInt x, LInt y => (x ≤ y)%Z
  | LStr s, LStr t => str_le s t
  | _, _ => False
  end.


(** A frame without the optional columns. *)
Definition bare_frame : DataFrame :=
  {| columns := ["company"; "RD_0"; "RD_1"; "RD_2"; "RD_3"; "RD_4"; "RD_5"; "RD_6"];
     records :=
       [raw_row "A" (LInt 0) "" (Some 1) (Some 1) (Some 1) (Some 1) (Some 1) (Some 1) (Some 1);
        raw_row "B" (LInt 0) "" (Some 2) (Some 0) (Some 1) None (Some 1) (Some 1) (Some 1)]%Q |}.

(** The text made of the characters [ws]. *)
Definition spaces (ws : list string) : string := foldr String.append "" ws.

(** The text left when a whitespace character is taken from the front. *)
Definition drop_space (s : string) : option string :=
  match s with
  | EmptyString => None
  | String a s1 =>
      if is_space (String a "") then Some s1 else
      match s1 with
      | EmptyString => None
      | String b s2 =>
          if is_space (String a (String b "")) then Some s2 else
          match s2 with
          | EmptyString => None
          | String c s3 =>
              if is_space (String a (String b (String c ""))) then Some s3
              else None
          end
      end
  end.

(** [c'] is the stripped text of [c] with whitespace around it. *)
Definition padded (c c' : string) : Prop :=
  ∃ ps qs, Forall (λ w, is_space w = true) ps
           ∧ Forall (λ w, is_space w = true) qs
           ∧ c' = spaces ps ++ strip c ++ spaces qs.

(** A header whose names carry an ideographic space (U+3000) and a
    no-break space (U+00A0). *)
Definition wide_space_frame : DataFrame :=
  {| columns := ["company"; utf8 0x3000 ++ "year"; "RD_0" ++ utf8 0x3000; "RD_1";
                 "RD_2" ++ utf8 0xA0; "RD_3"; "RD_4"; "RD_5"; "RD_6"];
     records := records example_frame |}.

(** ** The default sort kind: numpy's quicksort *)

(** [sort_values] hands the key column to [nargsort], which calls
    [numpy.argsort(kind="quicksort")].  What follows is that argsort in its
    generic (not vectorised) form: an index array [tosort], median-of-3
    partitions of the segments of more than 17 entries, insertion sort
    of the others.  [None] stands for what is not modelled: the switch
    to heapsort when the depth limit is exhausted. *)

Definition Qltb (a b : Q) : bool := negb (Qle_bool b a).

(** [v[tosort[i]]] *)
Definition key_at (v : list Q) (ts : list nat) (i : nat) : Q := nth (nth i ts 0%nat) v 0%Q.

(** [INTP_SWAP(tosort[i], tosort[j])] *)
Definition swap (i j : nat) (ts : list nat) : list nat :=
  <[j := nth i ts 0%nat]> (<[i := nth j ts 0%nat]> ts).

Definition swap_if (b : bool) (i j : nat) (ts : list nat) : list nat :=
  if b then swap i j ts else ts.

(** [do ++pi; while (v[*pi] < vp)] *)
Fixpoint scan_up (fuel : nat) (v : list Q) (ts : list nat) (vp : Q) (pi : nat) : option nat :=
  match fuel with
  | O => None
  | S fuel' =>
      if Qltb (key_at v ts (S pi)) vp then scan_up fuel' v ts vp (S pi)
      else Some (S pi)
  end.

(** [do --pj; while (vp < v[*pj])] *)
Fixpoint scan_down (fuel : nat) (v : list Q) (ts : list nat) (vp : Q) (pj : nat) : option nat :=
  match fuel, pj with
  | S fuel', S pj' =>
      if Qltb vp (key_at v ts pj') then scan_down fuel' v ts vp pj'
      else Some pj'
  | _, _ => None
  end.

(** The [for (;;)] loop of the partition. *)
Fixpoint exchange (fuel : nat) (v : list Q) (ts : list nat) (vp : Q) (pi pj : nat) :
    option (list nat * nat) :=
  match fuel with
  | O => None
  | S fuel' =>
      pi' ← scan_up (length ts) v ts vp pi;
      pj' ← scan_down (length ts) v ts vp pj;
      if decide (pj' ≤ pi')%nat then Some (ts, pi')
      else exchange fuel' v (swap pi' pj' ts) vp pi' pj'
  end.

(** One partition of the segment [pl..pr]; the result is the array and
    the final place [pi] of the pivot. *)
Definition partition (v : list Q) (ts : list nat) (pl pr : nat) : option (list nat * nat) :=
  let pm := (pl + (pr - pl) / 2)%nat in
  let ts := swap_if (Qltb (key_at v ts pm) (key_at v ts pl)) pm pl ts in
  let ts := swap_if (Qltb (key_at v ts pr) (key_at v ts pm)) pr pm ts in
  let ts := swap_if (Qltb (key_at v ts pm) (key_at v ts pl)) pm pl ts in
  let vp := key_at v ts pm in
  let ts := swap pm (pr - 1) ts in
  '(ts, pi) ← exchange (length ts) v ts vp pl (pr - 1)%nat;
  Some (swap pi (pr - 1) ts, pi).

(** The [while (pj > pl && vp < v[*pk])] loop of the insertion sort, and
    the final [*pj = vi]. *)
Fixpoint shift_down (fuel : nat) (v : list Q) (ts : list nat) (vi : nat) (vp : Q)
    (pl pj : nat) : list nat :=
  match fuel with
  | O => <[pj := vi]> ts
  | S fuel' =>
      if bool_decide (pl < pj)%nat && Qltb vp (key_at v ts (pj - 1)) then
        shift_down fuel' v (<[pj := nth (pj - 1) ts 0%nat]> ts) vi vp pl (pj - 1)
      else <[pj := vi]> ts
  end.

(** Insertion sort of the segment [pl..pr]. *)
Definition insertion_sort (v : list Q) (ts : list nat) (pl pr : nat) : list nat :=
  foldl (λ ts pi, shift_down pi v ts (nth pi ts 0%nat) (key_at v ts pi) pl pi)
        ts (seq (S pl) (pr - pl)).

(** The segment [pl..pr] with depth budget [cdepth].  After a partition
    the code goes on with the smaller part and pushes the larger one;
    the budget is tested when a pushed part is taken up again
    ([check]), not when the loop goes on. *)
Fixpoint sort_segment (fuel : nat) (check : bool) (v : list Q) (ts : list nat)
    (pl pr : nat) (cdepth : Z) : option (list nat) :=
  match fuel with
  | O => None
  | S fuel' =>
      if check && bool_decide (cdepth < 0)%Z then None
      else if decide (16 < pr - pl)%nat then
        '(ts, pi) ← partition v ts pl pr;
        if decide (pi - pl < pr - pi)%nat then
          ts ← sort_segment fuel' false v ts pl (pi - 1) (cdepth - 1);
          sort_segment fuel' true v ts (pi + 1) pr (cdepth - 1)
        else
          ts ← sort_segment fuel' false v ts (pi + 1) pr (cdepth - 1);
          sort_segment fuel' true v ts pl (pi - 1) (cdepth - 1)
      else Some (insertion_sort v ts pl pr)
  end.

(** [numpy.argsort(v, kind="quicksort")] *)
Definition aquicksort (v : list Q) : option (list nat) :=
  match v with
  | [] => Some []
  | _ :: _ =>
      sort_segment (S (length v)) true v (seq 0 (length v)) 0 (length v - 1)
        (2 * Z.log2 (Z.of_nat (length v)))
  end.

(** [pandas.core.sorting.nargsort] with [na_position="last"]: the
    positions of the NaN keys are set aside; for a descending sort the
    other keys and their positions are reversed, sorted ascending, and
    the result reversed. *)
Definition nargsort (items : list num) (ascending : bool) : option (list nat) :=
  let idx := seq 0 (length items) in
  let non_nans := dropna items in
  let non_nan_idx := filter (λ i, is_Some (items !!! i)) idx in
  let nan_idx := filter (λ i, ¬ is_Some (items !!! i)) idx in
  let non_nans := if ascending then non_nans else reverse non_nans in
  let non_nan_idx := if ascending then non_nan_idx else reverse non_nan_idx in
  order ← aquicksort non_nans;
  let indexer := (λ i, nth i non_nan_idx 0%nat) <$> order in
  let indexer := if ascending then indexer else reverse indexer in
  Some (indexer ++ nan_idx)%list.

(** [df.sort_values(by, ascending)] as pandas computes it: the rows
    taken in the order of the indexer. *)
Definition pandas_sort_values (key : RiskRecord → num) (ascending : bool)
    (l : list RiskRecord) : option (list RiskRecord) :=
  indexer ← nargsort (key <$> l) ascending;
  mapM (λ i, l !! i) indexer.

Global Instance Q_eq_dec : EqDecision Q.
Proof. solve_decision. Defined.

Global Instance RiskRecord_eq_dec : EqDecision RiskRecord.
Proof. solve_decision. Defined.

(** The sort kind of the source.  A sort returns a sorted rearrangement
    of its input; this is tested on the result of the model rather than
    proved of the algorithm, and the rows are insertion-sorted where the
    model has no result. *)
Definition quicksort_kind : SortKind.
Proof.
  refine {| sort_values key ascending l :=
              match pandas_sort_values key ascending l with
              | Some r =>
                  if decide (r ≡ₚ l ∧ StronglySorted (by_key key ascending) r)
                  then r else sort_values stable_kind key ascending l
              | None => sort_values stable_kind key ascending l
              end |}.
  - intros key ascending l. destruct (pandas_sort_values key ascending l) as [r|];
      [case_decide as H; [apply H|]|]; apply (sort_values_perm stable_kind).
  - intros key ascending l. destruct (pandas_sort_values key ascending l) as [r|];
      [case_decide as H; [apply H|]|]; apply (sort_values_sorted stable_kind).
Defined.

(** Eighteen companies of one year, all with the same composite. *)
Definition many_tied_frame : DataFrame :=
  {| columns := header;
     records := (λ i : nat, raw_row ("R" ++ pretty i) (LInt 2021) "bank"
                   (Some 1) (Some 1) (Some 1) (Some 1) (Some 1) (Some 1) (Some 1))%Q
                <$> seq 0 18 |}.

Definition many_tied_wide : list RiskRecord := shape true true <$> records many_tied_frame.

(** * Properties *)

(** A decidable closed proposition, settled by evaluation. *)
Ltac by_compute := apply (bool_decide_unpack _); vm_compute; exact I.

(** ** Loading *)

Lemma load_wide_inr raw w :
  load_wide raw = inr w →
  missing_columns raw = ∅ ∧
  w = shape (bool_decide ("year" ∈ strip <$> columns raw))
            (bool_decide ("industry" ∈ strip <$> columns raw)) <$> records raw.
Proof.
  unfold load_wide, missing_columns. case_decide; [|done].
  intros [= <-]. done.
Qed.

Lemma load_wide_inl raw e :
  load_wide raw = inl e →
  e = ValueError (missing_columns raw) ∧ missing_columns raw ≠ ∅.
Proof.
  unfold load_wide, missing_columns. case_decide; [done|].
  intros [= <-]. done.
Qed.

Lemma load_ValueError raw m :
  load raw = inl (ValueError m) ↔ load_wide raw = inl (ValueError m).
Proof.
  unfold load. destruct (load_wide raw) as [e|w] eqn:Hw; [split; intros [= ->]; done|].
  destruct (YEARS_of w) as [e|ys] eqn:Hy; [|split; discriminate].
  unfold YEARS_of in Hy.
  destruct (as_ints (unique (year <$> w))), (as_strs (unique (year <$> w)));
    simplify_eq; split; discriminate.
Qed.

Lemma elem_of_missing_columns raw c :
  c ∈ missing_columns raw ↔ c ∈ required ∧ c ∉ strip <$> columns raw.
Proof.
  unfold missing_columns. rewrite elem_of_difference, elem_of_list_to_set. done.
Qed.

Lemma load_ValueError_iff raw m :
  load raw = inl (ValueError m) ↔
    m = missing_columns raw ∧ missing_columns raw ≠ ∅.
Proof.
  rewrite load_ValueError. split.
  - intros H. apply load_wide_inl in H as [[= ->] Hne]. done.
  - intros [-> Hne]. unfold load_wide. fold (missing_columns raw).
    case_decide; done.
Qed.

(** C5. Loading stops with the schema error exactly when a required
    column is absent from the stripped header; the error carries exactly
    the absent required columns; and no wide table exists in that case. *)
Theorem load_schema_error (raw : DataFrame) (m : gset string) :
  (load raw = inl (ValueError m) ↔
     m = missing_columns raw ∧ missing_columns raw ≠ ∅)
  ∧ (∀ c, c ∈ missing_columns raw ↔ c ∈ required ∧ c ∉ strip <$> columns raw)
  ∧ (missing_columns raw ≠ ∅ ↔ ∀ w, load_wide raw ≠ inr w)
  ∧ (missing_columns raw ≠ ∅ ↔ ∃ c, c ∈ required ∧ c ∉ strip <$> columns raw).
Proof.
  split; [apply load_ValueError_iff|].
  split; [apply elem_of_missing_columns|split].
  - split.
    + intros Hne w Hw. apply load_wide_inr in Hw as [He _]. done.
    + intros Hno He. unfold load_wide in Hno. fold (missing_columns raw) in Hno.
      case_decide; [|done]. by eapply Hno.
  - split.
    + intros Hne. apply set_choose_L in Hne as [c Hc]. exists c.
      by apply elem_of_missing_columns.
    + intros [c Hc]. apply (non_empty_inhabited_L c).
      by apply elem_of_missing_columns.
Qed.

Example short_frame_error :
  load short_frame = inl (ValueError {["RD_3"; "RD_6"]}).
Proof.
  apply load_ValueError_iff. split; [|by vm_compute].
  apply set_eq. intros c.
  rewrite elem_of_missing_columns, elem_of_union, !elem_of_singleton. split.
  - intros [-> | ->]; split; by_compute.
  - intros [Hr Hc].
    unfold required in Hr. rewrite elem_of_list_to_set in Hr.
    repeat match goal with
    | H : _ ∈ _ :: _ |- _ => apply elem_of_cons in H as [-> | H]
    | H : _ ∈ [] |- _ => by apply elem_of_nil in H
    end; auto; exfalso; apply Hc; by_compute.
Qed.

(** C4. Every row of the wide table holds the fixed combinations of the
    raw indicators of the row it was derived from, and the row with
    RD_0..6 = 1..7 gives 1, 2, 9, 4, 12 and the composite 5.6. *)
Theorem categories_linear (raw : DataFrame) (w : list RiskRecord) :
  load_wide raw = inr w →
  Forall2 derived_from (records raw) w
  ∧ ∃ d, load_wide example_frame = inr [d]
      ∧ num_eq (market d) (Some 1%Q)
      ∧ num_eq (credit d) (Some 2%Q)
      ∧ num_eq (operational d) (Some 9%Q)
      ∧ num_eq (legal_compliance d) (Some 4%Q)
      ∧ num_eq (technical d) (Some 12%Q)
      ∧ num_eq (composite d) (Some (56 # 10)%Q).
Proof.
  intros Hw. apply load_wide_inr in Hw as [_ ->]. split.
  - induction (records raw) as [|r rs IH]; constructor; [|exact IH].
    repeat split.
  - eexists. split; [by vm_compute|]. by vm_compute.
Qed.

Lemma categories_linear_witness :
  ∃ w, load_wide example_frame = inr w
       ∧ Forall2 derived_from (records example_frame) w.
Proof.
  exists (shape true false <$> records example_frame).
  split; [by vm_compute|].
  apply (categories_linear example_frame). by vm_compute.
Defined.

(** ** The composite column *)









(** ** [top_companies] *)

Section TopCompanies.
Context (K : SortKind) (wide : list RiskRecord) (y : label).

Let dfy := rows_of_year wide y.
Let sorted := sort_values K composite false dfy.

Lemma sorted_length : length sorted = length dfy.
Proof. apply Permutation_length, sort_values_perm. Qed.

Lemma top_companies_take n :
  top_companies K wide y n = company <$> take n sorted.
Proof. reflexivity. Qed.

Lemma top_companies_length n :
  length (top_companies K wide y n) = n `min` length dfy.
Proof. rewrite top_companies_take, length_fmap, length_take, sorted_length. done. Qed.

Lemma take_sorted_split n :
  take n sorted ++ drop n sorted ≡ₚ dfy
  ∧ StronglySorted (by_key composite false) (take n sorted)
  ∧ (∀ r s, r ∈ take n sorted → s ∈ drop n sorted → by_key composite false r s).
Proof.
  pose proof (sort_values_sorted K composite false dfy) as Hs.
  fold sorted in Hs. rewrite <- (take_drop n sorted) in Hs.
  apply StronglySorted_app in Hs as (Hcross & Hl & _).
  split; [|split; [exact Hl|exact Hcross]].
  rewrite take_drop. apply sort_values_perm.
Qed.

Lemma top_companies_elem_of n c :
  c ∈ top_companies K wide y n → ∃ r, r ∈ wide ∧ year r = y ∧ company r = c.
Proof.
  rewrite top_companies_take. intros Hc.
  apply list_elem_of_fmap in Hc as (r & -> & Hr).
  exists r. assert (Hin : r ∈ dfy).
  { rewrite <- (sort_values_perm K composite false dfy).
    fold sorted. rewrite <- (take_drop n sorted). set_solver. }
  apply list_elem_of_filter in Hin as [Hy Hw]. done.
Qed.
End TopCompanies.

Lemma insert_by_desc r l :
  insert_by (by_key composite false) r l = insert_desc r l.
Proof.
  induction l as [|s l IH]; simpl; [done|]. rewrite IH.
  case_decide as Hrs; unfold by_key in Hrs.
  - by rewrite Hrs.
  - by apply not_true_is_false in Hrs as ->.
Qed.

(** With a stable sort kind the code computes the [topCompanies] of the
    specification. *)
Lemma top_companies_stable wide y n :
  top_companies stable_kind wide y n = topCompanies_spec wide y n.
Proof.
  unfold top_companies, topCompanies_spec, stable_sort_desc. simpl. do 2 f_equal.
  induction (filter (λ r, year r = y) wide) as [|r l IH]; simpl; [done|].
  by rewrite IH, insert_by_desc.
Qed.

(** The claim of C1 fails on ties.  On eighteen rows of one year with
    the same composite, numpy's quicksort partitions the (reversed) key
    column once and exchanges equal keys; the rows come out in the order
    0, 1, 16, 15, ..., 2, 17, so that the first eight companies are not
    the first eight of the table, which the stable order of the
    specification returns. *)
Lemma top_companies_quicksort_ties :
  load_wide many_tied_frame = inr many_tied_wide
  ∧ aquicksort (replicate 18 (7 # 5)%Q)
    = Some [0; 15; 14; 13; 12; 11; 10; 9; 8; 7; 6; 5; 4; 3; 2; 1; 16; 17]%nat
  ∧ nargsort (composite <$> many_tied_wide) false
    = Some [0; 1; 16; 15; 14; 13; 12; 11; 10; 9; 8; 7; 6; 5; 4; 3; 2; 17]%nat
  ∧ pandas_sort_values composite false (rows_of_year many_tied_wide (LInt 2021))
    = Some (sort_values quicksort_kind composite false
              (rows_of_year many_tied_wide (LInt 2021)))
  ∧ top_companies quicksort_kind many_tied_wide (LInt 2021) 8
    = ["R0"; "R1"; "R16"; "R15"; "R14"; "R13"; "R12"; "R11"]
  ∧ topCompanies_spec many_tied_wide (LInt 2021) 8
    = ["R0"; "R1"; "R2"; "R3"; "R4"; "R5"; "R6"; "R7"]
  ∧ top_companies quicksort_kind many_tied_wide (LInt 2021) 8
    ≠ topCompanies_spec many_tied_wide (LInt 2021) 8.
Proof.
  split; [by vm_compute|]. split; [by vm_compute|]. split; [by vm_compute|].
  split; [by vm_compute|]. split; [by vm_compute|]. split; [by vm_compute|].
  vm_compute. discriminate.
Qed.

(** On the three rows of [tied_wide] the same sort is an insertion sort
    and keeps the ties in table order. *)
Example top_companies_quicksort_small :
  top_companies quicksort_kind tied_wide (LInt 2021) 2 = ["C"; "A"]
  ∧ pandas_sort_values composite false tied_wide
    = Some (sort_values quicksort_kind composite false tied_wide).
Proof. split; by vm_compute. Qed.

(** C1 (amended). For every table, year and bound, and whatever the sort
    kind (that of the source included), [top_companies] returns the companies of a list [sel] of rows
    of that year, at most [n] of them and fewer only when the year has
    fewer rows; [sel] is sorted by descending composite (missing
    composites last), and every row of the year that is left out has a
    composite no higher than any selected one.  The order among rows of
    equal composite is left to the sort kind. *)
Theorem top_companies_sorted (K : SortKind) (wide : list RiskRecord)
    (y : label) (n : nat) :
  ∃ sel rest : list RiskRecord,
    top_companies K wide y n = company <$> sel
    ∧ (sel ++ rest)%list ≡ₚ rows_of_year wide y
    ∧ Forall (λ r, r ∈ wide ∧ year r = y) sel
    ∧ StronglySorted (by_key composite false) sel
    ∧ (∀ r s, r ∈ sel → s ∈ rest → by_key composite false r s)
    ∧ length (top_companies K wide y n) = n `min` length (rows_of_year wide y)
    ∧ (length (top_companies K wide y n) ≤ n)%nat
    ∧ ((length (top_companies K wide y n) < n)%nat →
       length (top_companies K wide y n) = length (rows_of_year wide y)).
Proof.
  destruct (take_sorted_split K wide y n) as (Hp & Hs & Hc).
  eexists _, _. split; [apply top_companies_take|].
  split; [exact Hp|]. split.
  { apply Forall_forall. intros r Hr.
    assert (Hin : r ∈ rows_of_year wide y) by (rewrite <- Hp; set_solver).
    apply list_elem_of_filter in Hin as [Hy Hw]. done. }
  split; [exact Hs|]. split; [exact Hc|].
  rewrite top_companies_length. repeat split; lia.
Qed.


(** ** The options cascade *)

Lemma elem_of_unique `{EqDecision A} (l : list A) (x : A) : x ∈ unique l ↔ x ∈ l.
Proof.
  induction l as [|a l IH]; simpl; [done|].
  rewrite !elem_of_cons, list_elem_of_filter, IH.
  destruct (decide (x = a)); tauto.
Qed.


Lemma by_key_refl key ascending r : by_key key ascending r r.
Proof. by destruct (total (by_key key ascending) r r). Qed.

(** The first row of the sorted rows of a year that has rows. *)
Lemma sorted_head K wide y r0 rs :
  rows_of_year wide y = r0 :: rs →
  ∃ r rest,
    sort_values K composite false (rows_of_year wide y) = r :: rest
    ∧ r ∈ wide ∧ year r = y
    ∧ ∀ s, s ∈ wide → year s = y → by_key composite false r s.
Proof.
  intros Hne.
  pose proof (sort_values_perm K composite false (rows_of_year wide y)) as Hp.
  pose proof (sort_values_sorted K composite false (rows_of_year wide y)) as Hs.
  destruct (sort_values K composite false (rows_of_year wide y)) as [|r rest].
  { rewrite Hne in Hp. by apply Permutation_nil_cons in Hp. }
  exists r, rest. split; [done|].
  assert (Hin : ∀ s, s ∈ r :: rest ↔ year s = y ∧ s ∈ wide).
  { intros s. rewrite Hp. unfold rows_of_year. by rewrite list_elem_of_filter. }
  destruct (proj1 (Hin r)) as [Hy Hw]; [left|].
  split; [done|]. split; [done|].
  intros s Hsw Hsy. apply StronglySorted_cons in Hs as [Hall _].
  assert (Hs' : s ∈ r :: rest) by (by apply Hin).
  apply elem_of_cons in Hs' as [-> | Hrest]; [apply by_key_refl|].
  by eapply Forall_forall in Hall.
Qed.

Lemma top_companies_min K wide y :
  top_companies K wide y (8 `min` length (rows_of_year wide y))
  = top_companies K wide y 8.
Proof.
  rewrite !top_companies_take. f_equal.
  pose proof (sorted_length K wide y) as Hl. simpl in Hl.
  destruct (Nat.min_spec 8 (length (rows_of_year wide y))) as [[_ ->]|[Hle ->]];
    [done|].
  rewrite !take_ge; [done|lia..].
Qed.

Lemma options_by_year_empty K wide y :
  rows_of_year wide y = [] →
  _options_by_year K wide y =
    {| company_options := []; company_value := None;
       industry_options := []; industry_value := None;
       compare_options := []; compare_value := [] |}.
Proof. unfold _options_by_year, rows_of_year. by intros ->. Qed.

Lemma options_by_year_rows K wide y r0 rs :
  rows_of_year wide y = r0 :: rs →
  _options_by_year K wide y =
    {| company_options := same_option <$> unique (company <$> rows_of_year wide y);
       company_value :=
         company <$> head (sort_values K composite false (rows_of_year wide y));
       industry_options := same_option <$> unique (industry <$> rows_of_year wide y);
       industry_value := None;
       compare_options := same_option <$> unique (company <$> rows_of_year wide y);
       compare_value := top_companies K wide y 8 |}.
Proof.
  intros Hne. rewrite <- top_companies_min.
  unfold _options_by_year, rows_of_year in *. by rewrite Hne.
Qed.

Lemma offered_same_option (l : list string) : offered (same_option <$> l) = l.
Proof.
  unfold offered. induction l as [|x l IH]; csimpl; [done|]. by rewrite IH.
Qed.

Lemma elem_of_year_column {B} `{EqDecision B} (f : RiskRecord → B) wide y b :
  b ∈ unique (f <$> rows_of_year wide y) ↔ ∃ r, r ∈ wide ∧ year r = y ∧ f r = b.
Proof.
  rewrite elem_of_unique, list_elem_of_fmap. unfold rows_of_year. split.
  - intros (r & -> & Hr). apply list_elem_of_filter in Hr as [Hy Hw]. eauto.
  - intros (r & Hw & Hy & <-). exists r. split; [done|].
    by apply list_elem_of_filter.
Qed.

Lemma rows_of_year_cases wide y :
  rows_of_year wide y = [] ∨ ∃ r0 rs, rows_of_year wide y = r0 :: rs.
Proof. destruct (rows_of_year wide y); eauto. Qed.


(** C10. For a year with at least one row, the defaults the cascade
    produces are among the options it produces: the default company is
    offered by the company dropdown and every default comparison company
    by the comparison dropdown. *)
Theorem defaults_are_offered (K : SortKind) (wide : list RiskRecord) (y : label) :
  rows_of_year wide y ≠ [] →
  (∃ c, company_value (_options_by_year K wide y) = Some c
        ∧ c ∈ offered (company_options (_options_by_year K wide y)))
  ∧ Forall (λ c, c ∈ offered (compare_options (_options_by_year K wide y)))
      (compare_value (_options_by_year K wide y)).
Proof.
  intros Hne.
  destruct (rows_of_year_cases wide y) as [He|(r0 & rs & Hrows)]; [done|].
  rewrite (options_by_year_rows K wide y r0 rs Hrows).
  cbn [company_options compare_options company_value compare_value].
  rewrite offered_same_option. split.
  - destruct (sorted_head K wide y r0 rs Hrows) as (r & rest & Hsort & Hw & Hy & _).
    exists (company r). rewrite Hsort. split; [done|].
    apply elem_of_year_column. eauto.
  - apply Forall_forall. intros c Hc.
    apply top_companies_elem_of in Hc as (r & Hw & Hy & <-).
    apply elem_of_year_column. eauto.
Qed.

Lemma defaults_are_offered_witness :
  company_value (_options_by_year reversing_kind tied_wide (LInt 2021)) = Some "C"
  ∧ compare_value (_options_by_year reversing_kind tied_wide (LInt 2021)) = ["C"; "B"; "A"]
  ∧ Forall (λ c, c ∈ offered (compare_options
                                (_options_by_year reversing_kind tied_wide (LInt 2021))))
      (compare_value (_options_by_year reversing_kind tied_wide (LInt 2021))).
Proof.
  split; [by vm_compute|]. split; [by vm_compute|].
  apply (defaults_are_offered reversing_kind tied_wide (LInt 2021)).
  by vm_compute.
Defined.

(** ** Radar *)

Lemma radar_data wide y company_sel is_dark :
  data (_radar wide y company_sel is_dark) =
    [Scatterpolar
       (match matching wide y company_sel with
        | [] => replicate 5 (Some 0%Q)
        | row :: _ => cats_of row
        end
        ++ take 1 (match matching wide y company_sel with
                   | [] => replicate 5 (Some 0%Q)
                   | row :: _ => cats_of row
                   end))%list
       ((cat_name <$> CATS) ++ [cat_name Market])%list
       company_sel RED "rgba(194,87,89,0.20)"].
Proof. reflexivity. Qed.

(** C7. The radar plots six points: the five category values of the
    first row matching the year and the company, followed by the first
    of them again, over the five category names followed by the first
    name again.  When no row matches, the five values are zero.  The
    callback is a total function: it raises nothing. *)
Theorem radar_closed_polygon (wide : list RiskRecord) (y : label)
    (company_sel : option string) (is_dark : bool) :
  ∃ rv theta,
    data (_radar wide y company_sel is_dark)
      = [Scatterpolar rv theta company_sel RED "rgba(194,87,89,0.20)"]
    ∧ length rv = 6%nat ∧ length theta = 6%nat
    ∧ take 5 theta = cat_name <$> CATS
    ∧ last theta = head theta
    ∧ last rv = head rv
    ∧ (∀ row, head (matching wide y company_sel) = Some row →
         take 5 rv = [market row; credit row; operational row;
                      legal_compliance row; technical row])
    ∧ ((∀ row, row ∈ wide → ¬ (year row = y ∧ Some (company row) = company_sel)) →
         take 5 rv = replicate 5 (Some 0%Q)).
Proof.
  eexists _, _. split; [apply radar_data|].
  destruct (matching wide y company_sel) as [|row rows] eqn:Hm.
  - repeat split; try done.
  - repeat split; try done.
    + by intros row' [= <-].
    + intros Hnone. exfalso.
      assert (Hin : row ∈ matching wide y company_sel) by (rewrite Hm; left).
      apply list_elem_of_filter in Hin as [Hp Hw]. by eapply Hnone.
Qed.

Example radar_of_nan_frame :
  data (_radar (shape true true <$> records nan_frame) (LInt 2021) (Some "A") true)
  = [Scatterpolar [None; Some 2; Some 9; Some 4; Some 12; None]%Q
       ["市场风险"; "信用风险"; "操作风险"; "法律合规风险"; "技术风险"; "市场风险"]
       (Some "A") RED "rgba(194,87,89,0.20)"].
Proof. by vm_compute. Qed.

(** ** Bars *)



Lemma bars_empty K wide y companies m is_dark :
  compared wide y companies = [] →
  _bars K wide y companies m is_dark = empty_figure.
Proof. unfold compared, rows_of_year, _bars. by intros ->. Qed.

Lemma bars_rows K wide y companies m is_dark r0 rs :
  compared wide y companies = r0 :: rs →
  _bars K wide y companies m is_dark =
    {| data := [Bar (bar_of m <$>
                       sort_values K (metric_value m) true (compared wide y companies))];
       layout := Some {| title := "公司对比（" ++ str_label y ++ "，维度："
                                    ++ metric_name m ++ "）";
                         paper_bgcolor := background (theme_colors is_dark);
                         font_color := text (theme_colors is_dark);
                         tickfont_color := None |} |}.
Proof. unfold compared, rows_of_year, _bars. by intros ->. Qed.

Lemma elem_of_compared wide y companies r :
  r ∈ compared wide y companies ↔ r ∈ wide ∧ year r = y ∧ company r ∈ companies.
Proof.
  unfold compared, rows_of_year. rewrite !list_elem_of_filter. tauto.
Qed.



(** ** The theme *)

Lemma radar_recolor wide y company_sel d1 d2 :
  _radar wide y company_sel d1 =
    recolor (background (theme_colors d1)) (text (theme_colors d1))
      (_radar wide y company_sel d2).
Proof. reflexivity. Qed.

Lemma bars_recolor K wide y companies m d1 d2 :
  _bars K wide y companies m d1 =
    recolor (background (theme_colors d1)) (text (theme_colors d1))
      (_bars K wide y companies m d2).
Proof.
  unfold _bars.
  destruct (filter (λ r, company r ∈ companies) (filter (λ r, year r = y) wide));
    reflexivity.
Qed.

Lemma heatmap_recolor wide y d1 d2 :
  _heatmap wide y d1 =
    recolor (background (theme_colors d1)) (text (theme_colors d1))
      (_heatmap wide y d2).
Proof.
  unfold _heatmap. destruct (filter (λ r, year r = y) wide); reflexivity.
Qed.

Lemma recolor_data bg fg f : data (recolor bg fg f) = data f.
Proof. reflexivity. Qed.

Lemma toggle_theme_inr app is_dark v :
  toggle_theme app is_dark = inr v →
  ∃ latest, last (YEARS app) = Some latest
            ∧ rendered_controls v = layout_defaults latest.
Proof.
  unfold toggle_theme. destruct (last (YEARS app)) as [latest|]; [|done].
  intros [= <-]. eauto.
Qed.

(** The claim of C2 fails for the controls: after the theme callback has
    run on [two_year_app], the year control shows 2020 and the other
    controls their initial values, whatever was selected; here the
    selection was the year 2019, company B and the market metric. *)
Lemma toggle_theme_resets_selection :
  load two_year_frame = inr two_year_app
  ∧ year_sel selection_2019 ∈ YEARS two_year_app
  ∧ ∀ is_dark, ∃ v,
      toggle_theme two_year_app is_dark = inr v
      ∧ rendered_controls v = layout_defaults (LInt 2020)
      ∧ rendered_controls v ≠ selection_2019.
Proof.
  split; [by vm_compute|]. split; [by_compute|].
  intros is_dark. eexists. split; [reflexivity|]. split; [done|].
  discriminate.
Qed.

(** C2 (amended). For every selection (year, company, comparison list,
    metric), the radar, bar and heatmap outputs under one theme are the
    outputs under the other with the background and text colours
    replaced: their data arrays and titles are the same.  The view that
    the theme callback returns holds the same dropdowns under both
    themes, and gives every control its initial value (the latest year,
    no company, no industry, an empty comparison list, the composite
    metric), whatever was selected before. *)
Theorem theme_is_presentation (K : SortKind) (app : App) (y : label)
    (company_sel : option string) (companies : list string) (m : Metric)
    (d1 d2 : bool) :
  (data (_radar (wide app) y company_sel d1) = data (_radar (wide app) y company_sel d2)
   ∧ _radar (wide app) y company_sel d1 =
       recolor (background (theme_colors d1)) (text (theme_colors d1))
         (_radar (wide app) y company_sel d2))
  ∧ (data (_bars K (wide app) y companies m d1) = data (_bars K (wide app) y companies m d2)
     ∧ _bars K (wide app) y companies m d1 =
         recolor (background (theme_colors d1)) (text (theme_colors d1))
           (_bars K (wide app) y companies m d2))
  ∧ (data (_heatmap (wide app) y d1) = data (_heatmap (wide app) y d2)
     ∧ _heatmap (wide app) y d1 =
         recolor (background (theme_colors d1)) (text (theme_colors d1))
           (_heatmap (wide app) y d2))
  ∧ match toggle_theme app d1, toggle_theme app d2 with
    | inr v1, inr v2 =>
        year_dropdown v1 = year_dropdown v2
        ∧ company_dropdown v1 = company_dropdown v2
        ∧ industry_dropdown v1 = industry_dropdown v2
        ∧ compare_dropdown v1 = compare_dropdown v2
        ∧ metric_dropdown v1 = metric_dropdown v2
        ∧ rendered_controls v1 = rendered_controls v2
        ∧ ∃ latest, last (YEARS app) = Some latest
                    ∧ rendered_controls v1 = layout_defaults latest
    | inl e1, inl e2 => e1 = IndexError ∧ e2 = IndexError ∧ YEARS app = []
    | _, _ => False
    end.
Proof.
  split; [|split; [|split]].
  - rewrite (radar_recolor _ _ _ d1 d2). by rewrite recolor_data.
  - rewrite (bars_recolor _ _ _ _ _ d1 d2). by rewrite recolor_data.
  - rewrite (heatmap_recolor _ _ d1 d2). by rewrite recolor_data.
  - unfold toggle_theme. destruct (last (YEARS app)) as [latest|] eqn:Hl.
    + repeat split; eauto.
    + repeat split. by apply last_None.
Qed.

Example dark_bars_of_two_year_app :
  _bars reversing_kind (wide two_year_app) (LInt 2019) ["A"; "B"] (Category LegalCompliance) true
  = {| data := [Bar [ {| bar_y := "B"; bar_x := Some (5 # 8)%Q; bar_group := "正";
                         bar_color := RED; bar_text := Some (62 # 100)%Q |};
                      {| bar_y := "A"; bar_x := Some 2%Q; bar_group := "正";
                         bar_color := RED; bar_text := Some (200 # 100)%Q |} ]];
       layout := Some {| title := "公司对比（2019，维度：法律合规风险）";
                         paper_bgcolor := "#2E2E2E"; font_color := "white";
                         tickfont_color := None |} |}.
Proof. by vm_compute. Qed.

(** ** Determinism of the load pipeline *)

Section Determinism.
Context (chardet_detect : bytes → option string)
        (pd_read_csv : bytes → string → exn + DataFrame).

Lemma read_csv_smart_bytes w src content :
  source_bytes w src = inr content →
  read_csv_smart chardet_detect pd_read_csv w src =
    pd_read_csv content (or_utf8 (chardet_detect (substring 0 SAMPLE content))).
Proof.
  unfold source_bytes, read_csv_smart.
  destruct (is_url src) as [url|]; intros ->; reflexivity.
Qed.

Lemma load_from_bytes w src content :
  source_bytes w src = inr content →
  load_from chardet_detect pd_read_csv w src
    = load_bytes chardet_detect pd_read_csv content.
Proof.
  intros Hb. unfold load_from, load_bytes.
  by rewrite (read_csv_smart_bytes w src content Hb).
Qed.
End Determinism.

(** C9. Two runs of the load pipeline over the same source bytes, be
    they fetched from a URL or read from a file, in the same or in
    different runs of the process, end in the same way: with identical
    wide tables (and year lists), or with the same exception.  The
    result is a function of the bytes alone. *)
Theorem load_deterministic (chardet_detect : bytes → option string)
    (pd_read_csv : bytes → string → exn + DataFrame)
    (w1 w2 : World) (src1 src2 : path_or_url) (content : bytes) :
  source_bytes w1 src1 = inr content →
  source_bytes w2 src2 = inr content →
  load_from chardet_detect pd_read_csv w1 src1
    = load_from chardet_detect pd_read_csv w2 src2
  ∧ load_from chardet_detect pd_read_csv w1 src1
    = load_bytes chardet_detect pd_read_csv content
  ∧ ∀ app1 app2,
      load_from chardet_detect pd_read_csv w1 src1 = inr app1 →
      load_from chardet_detect pd_read_csv w2 src2 = inr app2 →
      wide app1 = wide app2.
Proof.
  intros H1 H2.
  rewrite (load_from_bytes _ _ w1 src1 content H1).
  rewrite (load_from_bytes _ _ w2 src2 content H2).
  split; [done|]. split; [done|].
  intros app1 app2 -> [= ->]. done.
Qed.

Lemma load_deterministic_witness :
  source_bytes remote_world (PStr "https://example.org/scores.csv") = inr csv_bytes
  ∧ source_bytes local_world CSV_PATH = inr csv_bytes
  ∧ load_from toy_detect toy_read_csv remote_world (PStr "https://example.org/scores.csv")
    = load_from toy_detect toy_read_csv local_world CSV_PATH
  ∧ ∃ app, load_from toy_detect toy_read_csv local_world CSV_PATH = inr app
           ∧ length (wide app) = 1%nat.
Proof.
  split; [by vm_compute|]. split; [by vm_compute|]. split.
  - apply (load_deterministic toy_detect toy_read_csv remote_world local_world
             (PStr "https://example.org/scores.csv") CSV_PATH csv_bytes);
      by vm_compute.
  - eexists. split; [by vm_compute|]. done.
Defined.

(** * Further properties of the code *)

(** ** The year list *)

Global Instance str_le_total : Total str_le.
Proof. intros s t. unfold str_le. apply String.leb_total. Qed.

Global Instance str_le_trans : Transitive str_le.
Proof.
  intros s t u Hst Htu. unfold str_le in *.
  apply Is_true_true. apply Is_true_true in Hst, Htu.
  exact (transitivity (R := String.le) Hst Htu).
Qed.


Lemma as_ints_Some ys zs : as_ints ys = Some zs → ys = LInt <$> zs.
Proof.
  intros H. apply mapM_Some_1 in H.
  induction H as [|y z ys zs Hy Hrest IH]; [done|].
  destruct y; simplify_eq. done.
Qed.

Lemma as_strs_Some ys ss : as_strs ys = Some ss → ys = LStr <$> ss.
Proof.
  intros H. apply mapM_Some_1 in H.
  induction H as [|y s ys ss Hy Hrest IH]; [done|].
  destruct y; simplify_eq. done.
Qed.

Lemma YEARS_of_inr w ys :
  YEARS_of w = inr ys →
  ys ≡ₚ unique (year <$> w) ∧ StronglySorted label_le ys.
Proof.
  unfold YEARS_of.
  destruct (as_ints (unique (year <$> w))) as [zs|] eqn:Hi.
  { intros [= <-]. apply as_ints_Some in Hi. rewrite Hi. split.
    - by rewrite merge_sort_Permutation.
    - apply StronglySorted_fmap with (R1 := Z.le); [done|].
      apply StronglySorted_merge_sort; apply _. }
  destruct (as_strs (unique (year <$> w))) as [ss|] eqn:Hs; [|done].
  intros [= <-]. apply as_strs_Some in Hs. rewrite Hs. split.
  - by rewrite merge_sort_Permutation.
  - apply StronglySorted_fmap with (R1 := str_le); [done|].
    apply StronglySorted_merge_sort; apply _.
Qed.

Lemma load_inr raw app :
  load raw = inr app →
  load_wide raw = inr (wide app) ∧ YEARS_of (wide app) = inr (YEARS app).
Proof.
  unfold load. destruct (load_wide raw) as [e|w]; [done|].
  destruct (YEARS_of w) as [e|ys] eqn:Hy; [done|]. by intros [= <-].
Qed.



(** ** Backfill of the optional columns *)

Lemma filter_none {A} (P : A → Prop) `{∀ x, Decision (P x)} (l : list A) :
  Forall (λ x, ¬ P x) l → filter P l = [].
Proof.
  induction 1 as [|x l Hx Hl IH]; [done|]. rewrite filter_cons_False; done.
Qed.

Lemma unique_constant `{EqDecision A} (a : A) (l : list A) :
  Forall (λ x, x = a) l → l ≠ [] → unique l = [a].
Proof.
  destruct l as [|x l]; [done|]. intros Hall _.
  apply Forall_cons in Hall as [-> Hall]. simpl. f_equal.
  apply filter_none, Forall_forall. intros y Hy Hne.
  rewrite elem_of_unique in Hy. rewrite Forall_forall in Hall.
  apply Hne, Hall, Hy.
Qed.

(** X2. When the stripped header has no [year] column every row of the
    wide table gets the year "全部", and [YEARS] is that single value as
    soon as there is a row; when it has no [industry] column every row
    gets the industry "未指定".  A column that is present is kept as
    read. *)
Theorem backfill_optional_columns (raw : DataFrame) (app : App) :
  load raw = inr app →
  ("year" ∉ strip <$> columns raw →
     Forall (λ d, year d = LStr "全部") (wide app)
     ∧ (records raw ≠ [] → YEARS app = [LStr "全部"]))
  ∧ ("industry" ∉ strip <$> columns raw →
       Forall (λ d, industry d = "未指定") (wide app))
  ∧ ("year" ∈ strip <$> columns raw →
       year <$> wide app = r_year <$> records raw)
  ∧ ("industry" ∈ strip <$> columns raw →
       industry <$> wide app = r_industry <$> records raw).
Proof.
  intros Hl. pose proof (load_inr raw app Hl) as [Hw Hy].
  apply load_wide_inr in Hw as [_ Hw].
  assert (Hall : "year" ∉ strip <$> columns raw →
                 Forall (λ d, year d = LStr "全部") (wide app)).
  { intros Hno. rewrite Hw, Forall_fmap. apply Forall_true. intros r.
    simpl. by rewrite bool_decide_eq_false_2. }
  split; [|split; [|split]].
  - intros Hno. split; [by apply Hall|]. intros Hne.
    apply YEARS_of_inr in Hy as [Hp _].
    rewrite (unique_constant (LStr "全部")) in Hp.
    + by apply Permutation_singleton_r.
    + rewrite Forall_fmap. by apply Hall.
    + rewrite Hw. by destruct (records raw).
  - intros Hno. rewrite Hw, Forall_fmap. apply Forall_true. intros r.
    simpl. by rewrite bool_decide_eq_false_2.
  - intros Hin. rewrite Hw, <- list_fmap_compose. apply list_fmap_ext.
    intros i r _. simpl. by rewrite bool_decide_eq_true_2.
  - intros Hin. rewrite Hw, <- list_fmap_compose. apply list_fmap_ext.
    intros i r _. simpl. by rewrite bool_decide_eq_true_2.
Qed.

Lemma backfill_optional_columns_witness :
  ∃ app, load bare_frame = inr app
         ∧ YEARS app = [LStr "全部"]
         ∧ Forall (λ d, industry d = "未指定") (wide app).
Proof.
  exists {| wide := shape false false <$> records bare_frame;
            YEARS := [LStr "全部"] |}.
  split; [by vm_compute|]. split; [done|].
  eapply (backfill_optional_columns bare_frame); [by vm_compute|].
  by_compute.
Defined.

(** ** The year dropdown *)






(** ** More on [top_companies] *)

(** X4. When no two different rows of the year have composites that tie
    (equal numbers, or both missing), [top_companies] returns the
    [topCompanies] of the specification whatever the sort kind. *)
Theorem top_companies_without_ties (K : SortKind) (wide : list RiskRecord)
    (y : label) (n : nat) :
  (∀ r s, r ∈ rows_of_year wide y → s ∈ rows_of_year wide y →
          by_key composite false r s → by_key composite false s r → r = s) →
  top_companies K wide y n = topCompanies_spec wide y n.
Proof.
  intros Hties. rewrite <- top_companies_stable, !top_companies_take. do 2 f_equal.
  apply (StronglySorted_unique_strong (by_key composite false)).
  - intros r s Hr Hs. rewrite sort_values_perm in Hr, Hs. by apply Hties.
  - apply sort_values_sorted.
  - apply sort_values_sorted.
  - by rewrite !sort_values_perm.
Qed.

Lemma top_companies_without_ties_witness :
  top_companies reversing_kind (wide two_year_app) (LInt 2019) 8 = ["A"; "B"]
  ∧ top_companies reversing_kind (wide two_year_app) (LInt 2019) 8
    = topCompanies_spec (wide two_year_app) (LInt 2019) 8.
Proof.
  split; [by vm_compute|].
  apply top_companies_without_ties. intros r s Hr Hs.
  unfold rows_of_year in Hr, Hs. vm_compute in Hr, Hs.
  repeat match goal with
  | H : list_elem_of _ (_ :: _) |- _ => apply elem_of_cons in H as [-> | H]
  | H : _ ∈ _ :: _ |- _ => apply elem_of_cons in H as [-> | H]
  | H : _ ∈ [] |- _ => by apply elem_of_nil in H
  end; intros H1 H2;
    first [reflexivity | vm_compute in H1, H2; first [discriminate H1 | discriminate H2]].
Defined.

(** X5. The list for a smaller bound is the beginning of the list for a
    larger one, and the list is empty exactly when the bound is 0 or the
    year has no row. *)
Theorem top_companies_prefix (K : SortKind) (wide : list RiskRecord) (y : label)
    (n m : nat) :
  (n ≤ m)%nat →
  top_companies K wide y n = take n (top_companies K wide y m)
  ∧ (top_companies K wide y n = [] ↔ n = 0%nat ∨ rows_of_year wide y = []).
Proof.
  intros Hnm. split.
  - rewrite !top_companies_take, <- fmap_take, take_take.
    by rewrite Nat.min_l.
  - rewrite <- length_zero_iff_nil, top_companies_length.
    rewrite <- (length_zero_iff_nil (rows_of_year wide y)). lia.
Qed.

Lemma top_companies_prefix_witness :
  top_companies stable_kind tied_wide (LInt 2021) 1
  = take 1 (top_companies stable_kind tied_wide (LInt 2021) 3).
Proof. apply top_companies_prefix. lia. Defined.

(** ** The callbacks after a year change *)

(** X6. The default company of the cascade is the first company of its
    default comparison list (and there is none when the list is
    empty). *)
Theorem default_company_heads_comparison (K : SortKind) (wide : list RiskRecord)
    (y : label) :
  company_value (_options_by_year K wide y)
  = head (compare_value (_options_by_year K wide y)).
Proof.
  destruct (rows_of_year_cases wide y) as [He|(r0 & rs & Hrows)].
  - by rewrite (options_by_year_empty K wide y He).
  - rewrite (options_by_year_rows K wide y r0 rs Hrows).
    cbn [company_value compare_value]. rewrite top_companies_take.
    fold (rows_of_year wide y).
    by destruct (sort_values K composite false (rows_of_year wide y)).
Qed.

Lemma default_company_row K wide y r0 rs :
  rows_of_year wide y = r0 :: rs →
  ∃ r, company_value (_options_by_year K wide y) = Some (company r)
       ∧ r ∈ wide ∧ year r = y
       ∧ company r ∈ compare_value (_options_by_year K wide y).
Proof.
  intros Hrows.
  destruct (sorted_head K wide y r0 rs Hrows) as (r & rest & Hsort & Hw & Hy & _).
  exists r. rewrite (options_by_year_rows K wide y r0 rs Hrows).
  cbn [company_value compare_value]. rewrite top_companies_take.
  fold (rows_of_year wide y). rewrite Hsort. repeat split; try done. left.
Qed.



Lemma filter_all {A} (P : A → Prop) `{∀ x, Decision (P x)} (l : list A) :
  Forall P l → filter P l = l.
Proof.
  induction 1 as [|x l Hx Hl IH]; [done|]. rewrite filter_cons_True; [|done].
  by rewrite IH.
Qed.

Lemma bars_marks_length K wide y companies m is_dark :
  compared wide y companies ≠ [] →
  ∃ marks, data (_bars K wide y companies m is_dark) = [Bar marks]
           ∧ length marks = length (compared wide y companies)
           ∧ Forall (λ b, bar_y b ∈ companies) marks.
Proof.
  intros Hne. destruct (compared wide y companies) as [|r0 rs] eqn:Hc; [done|].
  rewrite (bars_rows K wide y companies m is_dark r0 rs Hc), <- Hc.
  eexists. split; [reflexivity|]. split.
  - rewrite length_fmap. apply Permutation_length, sort_values_perm.
  - rewrite Forall_fmap. apply Forall_forall. intros r Hr.
    rewrite sort_values_perm in Hr. by apply elem_of_compared in Hr as (_ & _ & ?).
Qed.

(** X8. For a year that has rows, the bar chart of the default
    comparison list is not empty and all its bars are companies of that
    list; when the year has at most 8 rows there is one bar for each row
    of the year. *)
Theorem bars_of_default_comparison (K : SortKind) (wide : list RiskRecord)
    (y : label) (m : Metric) (is_dark : bool) :
  rows_of_year wide y ≠ [] →
  ∃ marks,
    data (_bars K wide y (compare_value (_options_by_year K wide y)) m is_dark)
      = [Bar marks]
    ∧ marks ≠ []
    ∧ Forall (λ b, bar_y b ∈ compare_value (_options_by_year K wide y)) marks
    ∧ ((length (rows_of_year wide y) ≤ 8)%nat →
         length marks = length (rows_of_year wide y)).
Proof.
  intros Hne.
  destruct (rows_of_year_cases wide y) as [He|(r0 & rs & Hrows)]; [done|].
  destruct (default_company_row K wide y r0 rs Hrows) as (r & _ & Hw & Hy & Hin).
  set (companies := compare_value (_options_by_year K wide y)) in *.
  assert (Hr : r ∈ compared wide y companies) by (by apply elem_of_compared).
  destruct (bars_marks_length K wide y companies m is_dark) as (marks & Hd & Hlen & Hall).
  { intros He. rewrite He in Hr. by apply elem_of_nil in Hr. }
  exists marks. split; [done|]. split.
  { intros ->. simpl in Hlen. symmetry in Hlen.
    apply length_zero_iff_nil in Hlen. rewrite Hlen in Hr. by apply elem_of_nil in Hr. }
  split; [done|]. intros Hle. rewrite Hlen. f_equal.
  unfold compared. apply filter_all, Forall_forall. intros s Hs.
  subst companies. rewrite (options_by_year_rows K wide y r0 rs Hrows).
  cbn [compare_value]. rewrite top_companies_take. fold (rows_of_year wide y).
  pose proof (sorted_length K wide y) as Hsl. simpl in Hsl.
  rewrite take_ge by (fold (rows_of_year wide y) in Hsl; lia).
  apply list_elem_of_fmap_2. by rewrite sort_values_perm.
Qed.

Lemma bars_of_default_comparison_witness :
  ∃ marks,
    data (_bars reversing_kind tied_wide (LInt 2021)
            (compare_value (_options_by_year reversing_kind tied_wide (LInt 2021)))
            Composite true) = [Bar marks]
    ∧ marks ≠ []
    ∧ Forall (λ b, bar_y b ∈ compare_value
                (_options_by_year reversing_kind tied_wide (LInt 2021))) marks
    ∧ ((length (rows_of_year tied_wide (LInt 2021)) ≤ 8)%nat →
         length marks = length (rows_of_year tied_wide (LInt 2021))).
Proof. apply (bars_of_default_comparison reversing_kind tied_wide). by vm_compute. Defined.

(** ** Heatmap *)

(** X9. The heatmap of a year without rows is the empty figure.
    Otherwise its matrix has one line per category, in the order of
    [CATS], and one column per row of the year, in table order: entry
    (i, j) is category i of the j-th row of the year. *)
Theorem heatmap_matrix (wide : list RiskRecord) (y : label) (is_dark : bool) :
  (rows_of_year wide y = [] ∧ _heatmap wide y is_dark = empty_figure)
  ∨ (rows_of_year wide y ≠ []
     ∧ ∃ z, data (_heatmap wide y is_dark) = [Imshow z (cat_name <$> CATS)]
         ∧ length z = 5%nat
         ∧ Forall (λ line, length line = length (rows_of_year wide y)) z
         ∧ ∀ i j c r, CATS !! i = Some c → rows_of_year wide y !! j = Some r →
             z !! i ≫= (λ line, line !! j) = Some (cat_value c r)).
Proof.
  unfold _heatmap. fold (rows_of_year wide y).
  destruct (rows_of_year wide y) as [|r0 rs]; [by left|].
  right. split; [done|]. eexists. split; [reflexivity|]. split; [done|].
  generalize (r0 :: rs). intros dfy. split.
  - unfold cats_T. rewrite Forall_fmap. apply Forall_true. intros c.
    apply length_fmap.
  - intros i j c r Hc Hr. unfold cats_T.
    rewrite list_lookup_fmap, Hc. cbn [fmap option_fmap option_map mbind option_bind].
    by rewrite list_lookup_fmap, Hr.
Qed.

(** ** Rounding of the bar labels *)

Lemma rint_comp (q q' : Q) : (q == q')%Q → rint q = rint q'.
Proof.
  intros H. unfold rint. rewrite (Qfloor_comp q q' H).
  assert (Hm : (q - inject_Z (Qfloor q') == q' - inject_Z (Qfloor q'))%Q) by lra.
  by rewrite (Qcompare_comp _ _ Hm (1 # 2) (1 # 2) (Qeq_refl _)).
Qed.

Lemma rint_inject_Z (k : Z) : rint (inject_Z k) = k.
Proof.
  unfold rint. rewrite Qfloor_Z.
  assert (H : (inject_Z k - inject_Z k ?= 1 # 2)%Q = Lt).
  { apply (proj1 (Qlt_alt _ _)). lra. }
  by rewrite H.
Qed.

Lemma rint_sign (q : Q) :
  ((0 <= q)%Q → (0 ≤ rint q)%Z) ∧ ((q < 0)%Q → (rint q ≤ 0)%Z).
Proof.
  unfold rint. split.
  - intros Hq. apply Qfloor_resp_le in Hq. change (Qfloor 0) with 0%Z in Hq.
    destruct (q - inject_Z (Qfloor q) ?= 1 # 2)%Q; [destruct (Z.even _)|..]; lia.
  - intros Hq.
    assert (Hf : (Qfloor q < 0)%Z).
    { pose proof (Qfloor_le q) as Hle. apply Z.nle_gt. intros H0.
      assert (0 <= inject_Z (Qfloor q))%Q by (rewrite <- (Zle_Qle 0); exact H0).
      lra. }
    destruct (q - inject_Z (Qfloor q) ?= 1 # 2)%Q; [destruct (Z.even _)|..]; lia.
Qed.

(** X10. Rounding a bar label a second time changes nothing, and the
    label never has the sign opposite to its bar: a value that is at
    least 0 has a label that is at least 0, a negative value a label
    that is at most 0 (it is 0 for a value that rounds to 0). *)
Theorem round2_stable_sign (x : num) :
  num_eq (round2 (round2 x)) (round2 x)
  ∧ match x, round2 x with
    | Some q, Some t => ((0 <= q)%Q → (0 <= t)%Q) ∧ ((q < 0)%Q → (t <= 0)%Q)
    | None, None => True
    | _, _ => False
    end.
Proof.
  destruct x as [q|]; [|done].
  change (round2 (Some q)) with (Some (inject_Z (rint (q * 100)) / 100)%Q).
  set (k := rint (q * 100)). split.
  - change (round2 (Some (inject_Z k / 100)%Q))
      with (Some (inject_Z (rint (inject_Z k / 100 * 100)) / 100)%Q).
    assert (Hk : (inject_Z k / 100 * 100 == inject_Z k)%Q) by (field; discriminate).
    rewrite (rint_comp _ _ Hk), rint_inject_Z. simpl. reflexivity.
  - destruct (rint_sign (q * 100)) as [Hpos Hneg]. fold k in Hpos, Hneg.
    assert (Hd : (inject_Z k / 100 == inject_Z k * (1 # 100))%Q) by (field; discriminate).
    split; intros Hq.
    + assert (Hk : (0 ≤ k)%Z) by (apply Hpos; lra).
      rewrite Zle_Qle in Hk. change (inject_Z 0) with 0%Q in Hk. lra.
    + assert (Hk : (k ≤ 0)%Z) by (apply Hneg; lra).
      rewrite Zle_Qle in Hk. change (inject_Z 0) with 0%Q in Hk. lra.
Qed.

(** ** The reader *)

(** X13. A [str] that begins with http:// or https:// is fetched and the
    file system is not consulted; any other source is opened as a file
    and nothing is fetched.  When the source cannot be read, the load
    ends with that exception and no table. *)
Theorem reader_routes (chardet_detect : bytes → option string)
    (pd_read_csv : bytes → string → exn + DataFrame)
    (w1 w2 : World) (src : path_or_url) :
  (∀ url, is_url src = Some url →
     (∃ s, src = PStr s ∧ url = s
           ∧ (String.prefix "http://" s = true ∨ String.prefix "https://" s = true))
     ∧ (requests_get w1 url = requests_get w2 url →
        load_from chardet_detect pd_read_csv w1 src
          = load_from chardet_detect pd_read_csv w2 src))
  ∧ (is_url src = None →
       open_rb w1 src = open_rb w2 src →
       load_from chardet_detect pd_read_csv w1 src
         = load_from chardet_detect pd_read_csv w2 src)
  ∧ (∀ e, source_bytes w1 src = inl e →
       load_from chardet_detect pd_read_csv w1 src = inl e).
Proof.
  unfold load_from, read_csv_smart, source_bytes. split; [|split].
  - intros url Hu. rewrite Hu. split.
    + destruct src as [s|p]; [|done]. simpl in Hu.
      destruct (String.prefix "http://" s) eqn:H1;
        destruct (String.prefix "https://" s) eqn:H2; simplify_eq/=; eauto.
    + by intros ->.
  - intros -> Ho. by rewrite Ho.
  - intros e. destruct (is_url src) as [url|]; by intros ->.
Qed.

(** ** The first view *)




(** ** Order of the colours in the bar chart *)

(** X16. In the bar chart no bar of the non-negative colour comes before
    a bar of the negative colour that has a value: the bars with a
    negative value come first, then those with a non-negative value,
    then those without a value. *)
Theorem bars_colours_in_order (K : SortKind) (wide : list RiskRecord) (y : label)
    (companies : list string) (m : Metric) (is_dark : bool)
    (marks l1 l2 l3 : list BarMark) (b1 b2 : BarMark) :
  data (_bars K wide y companies m is_dark) = [Bar marks] →
  marks = (l1 ++ b1 :: l2 ++ b2 :: l3)%list →
  bar_color b1 = RED →
  (bar_color b2 = RED ∧ ∃ q1 q2, bar_x b1 = Some q1 ∧ bar_x b2 = Some q2 ∧ (q1 <= q2)%Q)
  ∨ bar_x b2 = None.
Proof.
  intros Hd Hm Hred.
  destruct (compared wide y companies) as [|r0 rs] eqn:Hc.
  { by rewrite (bars_empty K wide y companies m is_dark Hc) in Hd. }
  rewrite (bars_rows K wide y companies m is_dark r0 rs Hc) in Hd.
  injection Hd as Hd.
  pose proof (sort_values_sorted K (metric_value m) true (compared wide y companies)) as Hs.
  rewrite Hm in Hd.
  apply fmap_app_inv in Hd as (rows1 & rest & _ & Hrest & Hrows).
  symmetry in Hrest. apply fmap_cons_inv in Hrest as (r1 & rest' & -> & Hrest & ->).
  symmetry in Hrest. apply fmap_app_inv in Hrest as (rows2 & rest'' & _ & Hrest & ->).
  symmetry in Hrest. apply fmap_cons_inv in Hrest as (r2 & rows3 & -> & _ & ->).
  rewrite Hrows in Hs. apply StronglySorted_app_1_r in Hs.
  apply StronglySorted_cons in Hs as [Hall _].
  assert (H12 : by_key (metric_value m) true r1 r2).
  { rewrite Forall_forall in Hall. apply Hall. set_solver. }
  unfold by_key, key_leb in H12. unfold bar_of in *. simpl in *.
  destruct (metric_value m r1) as [q1|], (metric_value m r2) as [q2|];
    simpl in *; try done; [|by right].
  left. apply Qle_bool_iff in H12.
  destruct (Qle_bool 0 q1) eqn:H1; [|done]. apply Qle_bool_iff in H1.
  assert (H2 : Qle_bool 0 q2 = true) by (apply Qle_bool_iff; lra).
  rewrite H2. split; [done|]. by exists q1, q2.
Qed.

Lemma bars_colours_in_order_witness :
  ∃ b1 b2,
    data (_bars stable_kind tied_wide (LInt 2021) ["A"; "C"] Composite false)
      = [Bar [b1; b2]]
    ∧ bar_color b1 = RED
    ∧ (bar_color b2 = RED
       ∧ (∃ q1 q2, bar_x b1 = Some q1 ∧ bar_x b2 = Some q2 ∧ (q1 <= q2)%Q)
       ∨ bar_x b2 = None).
Proof.
  eexists _, _. split; [by vm_compute|]. split; [reflexivity|].
  eapply (bars_colours_in_order stable_kind tied_wide (LInt 2021) ["A"; "C"]
            Composite false _ [] [] []); [by vm_compute|reflexivity|reflexivity].
Defined.

(** ** [str.strip] on the header *)

Arguments is_space : simpl never.

Example strip_unicode_whitespace :
  strip ("RD_0" ++ utf8 0x3000) = "RD_0"
  ∧ strip (utf8 0x85 ++ " year" ++ utf8 0x2003 ++ " ") = "year"
  ∧ strip (" " ++ utf8 0x4E00 ++ utf8 0x3001 ++ " ") = utf8 0x4E00 ++ utf8 0x3001.
Proof. by vm_compute. Qed.

Example wide_space_header_loads :
  missing_columns wide_space_frame = ∅
  ∧ ∃ app, load wide_space_frame = inr app ∧ YEARS app = [LInt 2021].
Proof. split; [by vm_compute|]. eexists. split; by vm_compute. Qed.

(** Case analysis on a whitespace character. *)
Ltac elem_cases H :=
  unfold whitespace in H;
  repeat (apply elem_of_cons in H as [H | H]; [try subst|]);
  [..|by apply elem_of_nil in H].

Ltac space_cases H := apply bool_decide_eq_true in H; elem_cases H.

Lemma string_app_assoc (s t u : string) : (s ++ t) ++ u = s ++ t ++ u.
Proof.
  induction s as [|a s IH]; [done|].
  change (String a (s ++ t) ++ u = String a (s ++ t ++ u)).
  change (String a ((s ++ t) ++ u) = String a (s ++ t ++ u)). by f_equal.
Qed.

Lemma string_app_nil_r (t : string) : t ++ "" = t.
Proof.
  induction t as [|a t IH]; [done|].
  change (String a t ++ "") with (String a (t ++ "")). by f_equal.
Qed.

Lemma string_app_length (s t : string) :
  String.length (s ++ t) = (String.length s + String.length t)%nat.
Proof.
  induction s as [|a s IH]; [done|].
  change (S (String.length (s ++ t)) = S (String.length s + String.length t)).
  by f_equal.
Qed.

Lemma lstrip_unfold s :
  lstrip s = match drop_space s with Some r => lstrip r | None => s end.
Proof.
  destruct s as [|a [|b [|c s3]]]; cbn [lstrip drop_space]; try done;
    repeat (destruct (is_space _); try done).
Qed.

Lemma drop_space_app w x : is_space w = true → drop_space (w ++ x) = Some x.
Proof. intros H. space_cases H; by vm_compute. Qed.

Lemma drop_space_Some s r :
  drop_space s = Some r → ∃ w, is_space w = true ∧ s = w ++ r.
Proof.
  destruct s as [|a [|b [|c s3]]]; cbn [drop_space]; try done;
    repeat (match goal with
            | |- context [is_space ?w] => destruct (is_space w) eqn:?
            end; try done);
    intros [= <-]; eauto.
Qed.

Lemma drop_space_length s r :
  drop_space s = Some r → (String.length r < String.length s)%nat.
Proof.
  intros (w & Hw & ->)%drop_space_Some. rewrite string_app_length.
  space_cases Hw; simpl; lia.
Qed.

Lemma drop_space_lstrip s : drop_space (lstrip s) = None.
Proof.
  remember (String.length s) as n eqn:Hn. revert s Hn.
  induction n as [n IH] using lt_wf_ind. intros s ->.
  rewrite lstrip_unfold. destruct (drop_space s) as [r|] eqn:Hd; [|done].
  eapply IH; [|reflexivity]. by apply drop_space_length.
Qed.

Lemma lstrip_spaces ps x :
  Forall (λ w, is_space w = true) ps → lstrip (spaces ps ++ x) = lstrip x.
Proof.
  induction 1 as [|w ps Hw Hps IH]; [done|].
  change (spaces (w :: ps)) with (w ++ spaces ps).
  by rewrite string_app_assoc, lstrip_unfold, (drop_space_app w _ Hw).
Qed.

Lemma rstrip_space w : is_space w = true → rstrip w = "".
Proof. intros H. space_cases H; by vm_compute. Qed.

Lemma rstrip_app_space x w : is_space w = true → rstrip (x ++ w) = rstrip x.
Proof.
  intros Hw. induction x as [|a x IH].
  - change ("" ++ w) with w. by apply rstrip_space.
  - change (String a x ++ w) with (String a (x ++ w)). cbn [rstrip]. by rewrite IH.
Qed.

Lemma rstrip_spaces x qs :
  Forall (λ w, is_space w = true) qs → rstrip (x ++ spaces qs) = rstrip x.
Proof.
  intros Hqs. revert x. induction Hqs as [|w qs Hw Hqs IH]; intros x.
  - by rewrite string_app_nil_r.
  - change (spaces (w :: qs)) with (w ++ spaces qs).
    by rewrite <- string_app_assoc, IH, rstrip_app_space.
Qed.

Lemma rstrip_idemp s : rstrip (rstrip s) = rstrip s.
Proof.
  induction s as [|a s IH]; [done|]. cbn [rstrip].
  destruct (is_space (String a (rstrip s))) eqn:Hs; [done|].
  cbn [rstrip]. by rewrite IH, Hs.
Qed.

Lemma rstrip_prefix s : ∃ z, s = rstrip s ++ z.
Proof.
  induction s as [|a s [z IH]]; [by exists ""|]. cbn [rstrip].
  destruct (is_space (String a (rstrip s))); [by exists (String a s)|].
  exists z. change (String a s = String a (rstrip s ++ z)). by f_equal.
Qed.

Lemma drop_space_prefix u z r :
  drop_space u = Some r → drop_space (u ++ z) = Some (r ++ z).
Proof.
  intros (w & Hw & ->)%drop_space_Some.
  rewrite string_app_assoc. by apply drop_space_app.
Qed.

Lemma drop_space_strip s : drop_space (strip s) = None.
Proof.
  unfold strip. destruct (rstrip_prefix (lstrip s)) as [z Hz].
  destruct (drop_space (rstrip (lstrip s))) as [r|] eqn:Hd; [|done].
  apply (drop_space_prefix _ z) in Hd. rewrite <- Hz, drop_space_lstrip in Hd.
  done.
Qed.

(** The first byte of a whitespace character is not the second or third
    byte of one. *)
Lemma not_space_second a c t w t' :
  is_space w = true → w = String c t' → is_space (String a (String c t)) = false.
Proof.
  intros Hw ->. apply bool_decide_eq_false. intros H.
  elem_cases H; space_cases Hw; simplify_eq.
Qed.

Lemma not_space_third a b c w t' :
  is_space w = true → w = String c t' →
  is_space (String a (String b (String c ""))) = false.
Proof.
  intros Hw ->. apply bool_decide_eq_false. intros H.
  elem_cases H; space_cases Hw; simplify_eq.
Qed.

Lemma drop_space_app_spaces u qs :
  drop_space u = None → u ≠ "" → Forall (λ w, is_space w = true) qs →
  drop_space (u ++ spaces qs) = None.
Proof.
  intros Hu Hne Hqs. destruct Hqs as [|w qs Hw _].
  { by rewrite string_app_nil_r. }
  change (spaces (w :: qs)) with (w ++ spaces qs).
  assert (Hhead : ∃ c t', w = String c t').
  { destruct w as [|c t']; [|by eauto]. by vm_compute in Hw. }
  destruct Hhead as (c & t' & Hc). rewrite Hc.
  change (String c t' ++ spaces qs) with (String c (t' ++ spaces qs)).
  generalize (t' ++ spaces qs). intros rest.
  destruct u as [|a [|b [|c0 u']]]; [done|..].
  - change (String a "" ++ String c rest) with (String a (String c rest)).
    cbn [drop_space] in *.
    destruct (is_space (String a "")); [done|].
    rewrite (not_space_second a c "" w t' Hw Hc).
    destruct rest as [|d rest']; [done|].
    by rewrite (not_space_second a c (String d "") w t' Hw Hc).
  - change (String a (String b "") ++ String c rest)
      with (String a (String b (String c rest))).
    cbn [drop_space] in *.
    destruct (is_space (String a "")); [done|].
    destruct (is_space (String a (String b ""))); [done|].
    by rewrite (not_space_third a b c w t' Hw Hc).
  - change (String a (String b (String c0 u')) ++ String c rest)
      with (String a (String b (String c0 (u' ++ String c rest)))).
    cbn [drop_space] in *.
    destruct (is_space (String a "")); [done|].
    destruct (is_space (String a (String b ""))); [done|].
    by destruct (is_space (String a (String b (String c0 "")))).
Qed.

Lemma strip_pad (ps qs : list string) (s : string) :
  Forall (λ w, is_space w = true) ps → Forall (λ w, is_space w = true) qs →
  strip (spaces ps ++ strip s ++ spaces qs) = strip s.
Proof.
  intros Hps Hqs. unfold strip at 1. rewrite (lstrip_spaces _ _ Hps).
  destruct (decide (strip s = "")) as [He|Hne].
  - rewrite He. change ("" ++ spaces qs) with (spaces qs).
    rewrite <- (string_app_nil_r (spaces qs)), (lstrip_spaces _ _ Hqs). done.
  - rewrite lstrip_unfold.
    rewrite (drop_space_app_spaces _ _ (drop_space_strip s) Hne Hqs).
    rewrite (rstrip_spaces _ _ Hqs). unfold strip. apply rstrip_idemp.
Qed.

Lemma strip_idemp s : strip (strip s) = strip s.
Proof.
  pose proof (strip_pad [] [] s (Forall_nil_2 _) (Forall_nil_2 _)) as H.
  change (spaces []) with "" in H. change ("" ++ strip s ++ "") with (strip s ++ "") in H.
  by rewrite string_app_nil_r in H.
Qed.

Lemma rstrip_length s : (String.length (rstrip s) ≤ String.length s)%nat.
Proof.
  destruct (rstrip_prefix s) as [z Hz]. rewrite Hz at 2.
  rewrite string_app_length. lia.
Qed.

(** X12. [strip] removes any whitespace characters, ASCII or not, put
    around a stripped text, and nothing else: for lists [ps] and [qs] of
    whitespace characters, stripping [spaces ps ++ strip s ++ spaces qs]
    gives [strip s] back.  In particular stripping twice is stripping
    once, and a stripped text neither begins nor ends with a whitespace
    character. *)
Theorem strip_removes_padding (ps qs : list string) (s : string) :
  Forall (λ w, is_space w = true) ps → Forall (λ w, is_space w = true) qs →
  strip (spaces ps ++ strip s ++ spaces qs) = strip s
  ∧ strip (strip s) = strip s
  ∧ (∀ w t, is_space w = true → strip s ≠ w ++ t)
  ∧ (∀ w t, is_space w = true → strip s ≠ t ++ w).
Proof.
  intros Hps Hqs. split; [by apply strip_pad|]. split; [apply strip_idemp|]. split.
  - intros w t Hw He. pose proof (drop_space_strip s) as Hd.
    by rewrite He, (drop_space_app w t Hw) in Hd.
  - intros w t Hw He.
    assert (Hr : rstrip (strip s) = strip s) by (unfold strip; apply rstrip_idemp).
    rewrite He, (rstrip_app_space t w Hw) in Hr.
    pose proof (rstrip_length t) as Hl. rewrite Hr, string_app_length in Hl.
    space_cases Hw; simpl in Hl; lia.
Qed.

Lemma strip_removes_padding_witness :
  strip (spaces [" "; utf8 0x3000] ++ strip " RD_0 " ++ spaces [utf8 0xA0; String "009" ""])
  = "RD_0".
Proof.
  transitivity (strip " RD_0 "); [|by vm_compute].
  apply strip_removes_padding; repeat constructor.
Defined.

(** X14. Whitespace characters, ASCII or not, around the names of the
    header do not change what is loaded: two frames with the same rows
    whose header names differ only by surrounding whitespace load to the
    same result, table or exception. *)
Theorem load_ignores_header_padding (raw raw' : DataFrame) :
  Forall2 padded (columns raw) (columns raw') →
  records raw' = records raw →
  load raw' = load raw.
Proof.
  intros Hc Hr.
  assert (Hs : strip <$> columns raw' = strip <$> columns raw).
  { induction Hc as [|c c' cs cs' (ps & qs & Hp & Hq & ->) Hcs IH]; [done|].
    csimpl. rewrite IH. f_equal. by apply strip_pad. }
  unfold load, load_wide. by rewrite Hs, Hr.
Qed.

Ltac pad_by ps qs :=
  exists ps, qs; split; [repeat constructor|split; [repeat constructor|by vm_compute]].

Lemma load_ignores_header_padding_witness :
  load wide_space_frame
  = load {| columns := ["company"; "year"; "RD_0"; "RD_1"; "RD_2"; "RD_3";
                        "RD_4"; "RD_5"; "RD_6"];
            records := records wide_space_frame |}.
Proof.
  apply load_ignores_header_padding; [|done].
  unfold wide_space_frame. cbn [columns].
  repeat (apply List.Forall2_cons;
    [first [ pad_by (@nil string) (@nil string)
           | pad_by [utf8 0x3000] (@nil string)
           | pad_by (@nil string) [utf8 0x3000]
           | pad_by (@nil string) [utf8 0xA0] ]|]).
  apply List.Forall2_nil.
Defined.
